(** * todoist-cli: reference resolution, formatting, review and reminders

    A shallow embedding of [src/cli.ts].  JavaScript strings are modelled as
    [string]; one [ascii] stands for one UTF-16 code unit in the range
    U+0000..U+00FF, on which the built-ins used by the program
    ([trim], [toLowerCase], [includes], the regular expressions) are
    defined below.  JavaScript numbers are modelled by [Z] (by [nat] for
    lengths and HTTP statuses), exact where the program's are. *)

From Stdlib Require Import String Ascii List Bool ZArith Lia DecimalString.
From Stdlib Require DecimalNat.
Import ListNotations.
Open Scope string_scope.

(* ------------------------------------------------------------------ *)
(** ** JavaScript built-ins used by the program *)

Module Js.

Definition code (c : ascii) : nat := nat_of_ascii c.

(** WhiteSpace and LineTerminator code units below U+0100: TAB, LF, VT,
    FF, CR, SP and NBSP.  This is the class [\s] and what [trim] strips. *)
Definition isWhiteSpace (c : ascii) : bool :=
  let n := code c in
  (((9 <=? n) && (n <=? 13)) || (n =? 32) || (n =? 160))%nat.

(** [\d] *)
Definition isDigit (c : ascii) : bool :=
  let n := code c in ((48 <=? n) && (n <=? 57))%nat.

(** [[a-zA-Z]] *)
Definition isAsciiLetter (c : ascii) : bool :=
  let n := code c in
  (((65 <=? n) && (n <=? 90)) || ((97 <=? n) && (n <=? 122)))%nat.

(** Code units with a lowercase mapping below U+0100: A-Z and the
    Latin-1 capitals U+00C0..U+00DE except the multiplication sign. *)
Definition lowerChar (c : ascii) : ascii :=
  let n := code c in
  if (((65 <=? n) && (n <=? 90))
      || ((192 <=? n) && (n <=? 222) && negb (n =? 215)))%nat
  then ascii_of_nat (n + 32) else c.

Fixpoint toLowerCase (s : string) : string :=
  match s with
  | EmptyString => EmptyString
  | String c r => String (lowerChar c) (toLowerCase r)
  end.

Fixpoint trimStart (s : string) : string :=
  match s with
  | EmptyString => EmptyString
  | String c r => if isWhiteSpace c then trimStart r else s
  end.

Fixpoint trimEnd (s : string) : string :=
  match s with
  | EmptyString => EmptyString
  | String c r =>
      let r' := trimEnd r in
      if (r' =? "") && isWhiteSpace c then EmptyString else String c r'
  end.

Definition trim (s : string) : string := trimEnd (trimStart s).

(** ToBoolean on a string: only the empty string is falsy. *)
Definition truthy (s : string) : bool := negb (s =? "").

(** ToBoolean on [string | undefined]. *)
Definition truthyOpt (o : option string) : bool :=
  match o with
  | Some s => truthy s
  | None => false
  end.

(** [stripPrefix p s] is the rest of [s] after the literal [p]. *)
Fixpoint stripPrefix (p s : string) : option string :=
  match p with
  | EmptyString => Some s
  | String a p' =>
      match s with
      | EmptyString => None
      | String b s' => if Ascii.eqb a b then stripPrefix p' s' else None
      end
  end.

(** [s.startsWith(p)] *)
Definition startsWith (s p : string) : bool :=
  match stripPrefix p s with
  | Some _ => true
  | None => false
  end.

(** [s.includes(sub)] *)
Fixpoint includes (s sub : string) : bool :=
  startsWith s sub ||
  match s with
  | EmptyString => false
  | String _ r => includes r sub
  end.

(** [s.slice(n)] for a non-negative [n]. *)
Fixpoint slice (n : nat) (s : string) : string :=
  match n, s with
  | O, _ => s
  | S n', String _ r => slice n' r
  | S _, EmptyString => EmptyString
  end.

(** [s.lastIndexOf(c)] for a one-character needle; [None] is -1. *)
Fixpoint lastIndexOf (c : ascii) (s : string) : option nat :=
  match s with
  | EmptyString => None
  | String a r =>
      match lastIndexOf c r with
      | Some i => Some (S i)
      | None => if Ascii.eqb a c then Some 0 else None
      end
  end.

Fixpoint existsChar (p : ascii -> bool) (s : string) : bool :=
  match s with
  | EmptyString => false
  | String c r => p c || existsChar p r
  end.

Fixpoint forallChar (p : ascii -> bool) (s : string) : bool :=
  match s with
  | EmptyString => true
  | String c r => p c && forallChar p r
  end.

(** Longest prefix of characters satisfying [p], and the rest. *)
Fixpoint span (p : ascii -> bool) (s : string) : string * string :=
  match s with
  | EmptyString => (EmptyString, EmptyString)
  | String c r =>
      if p c then let (a, b) := span p r in (String c a, b)
      else (EmptyString, s)
  end.

(** The double-quote and line-feed characters, which the messages embed. *)
Definition dq : string := String (ascii_of_nat 34) EmptyString.
Definition nl : string := String (ascii_of_nat 10) EmptyString.

(** [xs.join(sep)] *)
Definition join (sep : string) (xs : list string) : string :=
  String.concat sep xs.

End Js.

(* ------------------------------------------------------------------ *)
(** ** Data model *)

Module Due.
Record t := mk {
  date : option String.string;
  datetime : option String.string;
  isRecurring : bool;
  string : String.string
}.
End Due.

Module Deadline.
Record t := mk { date : string }.
End Deadline.

Module Task.
Record t := mk {
  id : string;
  content : string;
  description : string;
  priority : Z;
  due : option Due.t;
  deadline : option Deadline.t;
  labels : list string;
  projectId : string;
  sectionId : option string;
  parentId : option string;
  url : string
}.
End Task.

Module Project.
Record t := mk {
  id : string;
  name : string;
  isInboxProject : bool
}.
End Project.

(* ------------------------------------------------------------------ *)
(** ** Effects: remote calls, exceptions and [process.exit] *)

(** A call to the remote service. *)
Inductive call : Type :=
| GetTask (id : string)
| GetTasksByFilter (query : string) (limit : option nat)
| GetTasks (projectId : option string)
| GetProject (id : string)
| GetProjects
| SyncReminderAdd (token uuid temp_id item_id : string)
    (minute_offset : option Z) (due_date : option string).

(** How a computation ends: it returns, it throws (a rejected promise,
    carrying [err.message]), or [fatal] prints the message and exits
    with status 1.  [try]/[catch] sees the second, never the third. *)
Inductive outcome (A : Type) : Type :=
| Returned (a : A)
| Thrown (err : string)
| Exited (message : string).

Arguments Returned {A} a.
Arguments Thrown {A} err.
Arguments Exited {A} message.

(** A run: its outcome and the remote calls it made, in order. *)
Definition run (A : Type) : Type := (outcome A * list call)%type.

Definition ret {A} (a : A) : run A := (Returned a, []).
Definition throw {A} (e : string) : run A := (Thrown e, []).
Definition fatal {A} (message : string) : run A := (Exited message, []).

Definition bind {A B} (m : run A) (k : A -> run B) : run B :=
  match m with
  | (Returned a, tr) => let (o, tr') := k a in (o, (tr ++ tr')%list)
  | (Thrown e, tr) => (Thrown e, tr)
  | (Exited msg, tr) => (Exited msg, tr)
  end.

(** [try { m } catch { h }] *)
Definition tryCatch {A} (m : run A) (h : run A) : run A :=
  match m with
  | (Thrown _, tr) => let (o, tr') := h in (o, (tr ++ tr')%list)
  | _ => m
  end.

(** The [catch] of [main]: an error thrown by a command ends the process
    through [fatal]. *)
Definition mainCatch {A} (cmd : string) (m : run A) : run A :=
  match m with
  | (Thrown e, tr) => (Exited (cmd ++ " failed: " ++ e), tr)
  | _ => m
  end.

Notation "x <- m ;; k" := (bind m (fun x => k))
  (at level 61, m at next level, right associativity).

(** A remote call either resolves with a value or rejects with an error. *)
Definition response (A : Type) : Type := (string + A)%type.

Definition await {A} (c : call) (r : response A) : run A :=
  match r with
  | inl e => (Thrown e, [c])
  | inr a => (Returned a, [c])
  end.

(** The SDK client, as the answers the remote service gives. *)
Record TodoistApi := {
  getTask : string -> response Task.t;
  getTasksByFilter : string -> option nat -> response (list Task.t);
  getTasks : option string -> response (list Task.t);
  getProject : string -> response Project.t;
  getProjects : response (list Project.t)
}.

(* ------------------------------------------------------------------ *)
(** ** Ref resolution *)

Module Refs.
Import Js.

Record ParsedUrl := { type : string; id : string }.

(** The alternation [(task|project|label|filter)] followed by [/]. *)
Fixpoint matchKind (kinds : list string) (s : string)
  : option (string * string) :=
  match kinds with
  | [] => None
  | k :: ks =>
      match stripPrefix (k ++ "/") s with
      | Some rest => Some (k, rest)
      | None => matchKind ks s
      end
  end.

Definition notQueryOrHash (c : ascii) : bool :=
  negb (Ascii.eqb c "?"%char || Ascii.eqb c "#"%char).

(** What follows [^https?] in TODOIST_URL_PATTERN; the result is the
    pair of capture groups. *)
Definition matchAfterScheme (s : string) : option (string * string) :=
  match stripPrefix "://app.todoist.com/app/" s with
  | None => None
  | Some r =>
      match matchKind ["task"; "project"; "label"; "filter"] r with
      | None => None
      | Some (kind, r') =>
          match fst (span notQueryOrHash r') with
          | EmptyString => None
          | slugAndId => Some (kind, slugAndId)
          end
      end
  end.

(** [url.match(TODOIST_URL_PATTERN)] *)
Definition matchTodoistUrl (url : string) : option (string * string) :=
  match stripPrefix "http" url with
  | None => None
  | Some r =>
      match stripPrefix "s" r with
      | Some r' =>
          match matchAfterScheme r' with
          | Some m => Some m
          | None => matchAfterScheme r
          end
      | None => matchAfterScheme r
      end
  end.

Definition parseTodoistUrl (url : string) : option ParsedUrl :=
  match matchTodoistUrl url with
  | None => None
  | Some (kind, slugAndId) =>
      let id :=
        match lastIndexOf "-"%char slugAndId with
        | None => slugAndId
        | Some lastHyphen => slice (lastHyphen + 1) slugAndId
        end in
      Some {| type := kind; id := id |}
  end.

Definition isIdRef (ref : string) : bool := startsWith ref "id:".
Definition extractId (ref : string) : string := slice 3 ref.

Definition looksLikeRawId (ref : string) : bool :=
  if includes ref " " then false
  else
    (* /^\d+$/ *)
    (existsChar isDigit ref && forallChar isDigit ref)
    (* /[a-zA-Z]/ and /\d/ *)
    || (existsChar isAsciiLetter ref && existsChar isDigit ref).

(** One line of the candidate listing. *)
Definition candidateLine (c : string * string) : string :=
  "  " ++ dq ++ fst c ++ dq ++ " (id:" ++ snd c ++ ")".

Definition ambiguousMessage (kind ref : string)
  (cands : list (string * string)) : string :=
  "Ambiguous " ++ kind ++ " " ++ dq ++ ref ++ dq ++ ". Matches:" ++ nl
    ++ join nl (map candidateLine cands).

Definition notFoundMessage (kind ref : string) : string :=
  kind ++ " " ++ dq ++ ref ++ dq ++ " not found. Use a name, URL, or id:xxx.".

Definition wrongUrlMessage (expected got : string) : string :=
  "Expected a " ++ expected ++ " URL, got " ++ got ++ " URL.".

Definition taskCandidate (t : Task.t) : string * string :=
  (Task.content t, Task.id t).

Definition projectCandidate (p : Project.t) : string * string :=
  (Project.name p, Project.id p).

Definition resolveTaskRef (api : TodoistApi) (ref : string) : run Task.t :=
  if negb (truthy (trim ref)) then fatal "Task reference cannot be empty."
  else
    match parseTodoistUrl ref with
    | Some parsed =>
        if negb (type parsed =? "task")
        then fatal (wrongUrlMessage "task" (type parsed))
        else await (GetTask (id parsed)) (getTask api (id parsed))
    | None =>
        if isIdRef ref
        then await (GetTask (extractId ref)) (getTask api (extractId ref))
        else
          (* the [try] block yields [Some t] when it returns [t] and
             [None] when control falls out of it *)
          found <-
            tryCatch
              (results <- await (GetTasksByFilter ("search: " ++ ref) (Some 10))
                            (getTasksByFilter api ("search: " ++ ref) (Some 10)) ;;
               let lower := toLowerCase ref in
               let exact :=
                 filter (fun t => toLowerCase (Task.content t) =? lower)
                   results in
               match exact with
               | [t] => ret (Some t)
               | _ =>
                   let partial :=
                     filter (fun t => includes (toLowerCase (Task.content t)) lower)
                       results in
                   match partial with
                   | [t] => ret (Some t)
                   | _ :: _ :: _ =>
                       fatal (ambiguousMessage "task" ref
                                (map taskCandidate (firstn 5 partial)))
                   | [] => ret None
                   end
               end)
              (ret None) ;;
          match found with
          | Some t => ret t
          | None =>
              tried <-
                (if looksLikeRawId ref
                 then tryCatch
                        (t <- await (GetTask ref) (getTask api ref) ;;
                         ret (Some t))
                        (ret None)
                 else ret None) ;;
              match tried with
              | Some t => ret t
              | None => fatal (notFoundMessage "Task" ref)
              end
          end
    end.

Definition resolveProjectRef (api : TodoistApi) (ref : string)
  : run Project.t :=
  if negb (truthy (trim ref)) then fatal "Project reference cannot be empty."
  else
    match parseTodoistUrl ref with
    | Some parsed =>
        if negb (type parsed =? "project")
        then fatal (wrongUrlMessage "project" (type parsed))
        else await (GetProject (id parsed)) (getProject api (id parsed))
    | None =>
        if isIdRef ref
        then await (GetProject (extractId ref))
               (getProject api (extractId ref))
        else
          projects <- await GetProjects (getProjects api) ;;
          let lower := toLowerCase ref in
          let exact :=
            filter (fun p => toLowerCase (Project.name p) =? lower)
              projects in
          match exact with
          | [p] => ret p
          | _ =>
              let partial :=
                filter (fun p => includes (toLowerCase (Project.name p)) lower)
                  projects in
              match partial with
              | [p] => ret p
              | _ :: _ :: _ =>
                  fatal (ambiguousMessage "project" ref
                           (map projectCandidate (firstn 5 partial)))
              | [] =>
                  tried <-
                    (if looksLikeRawId ref
                     then tryCatch
                            (p <- await (GetProject ref) (getProject api ref) ;;
                             ret (Some p))
                            (ret None)
                     else ret None) ;;
                  match tried with
                  | Some p => ret p
                  | None => fatal (notFoundMessage "Project" ref)
                  end
              end
          end
    end.

End Refs.

(* ------------------------------------------------------------------ *)
(** ** Facts about the built-ins *)

Module JsFacts.
Import Js.

Lemma stripPrefix_app (p s r : string) :
  stripPrefix p s = Some r -> s = p ++ r.
Proof.
  revert s; induction p as [|a p IH]; intros s H; simpl in *.
  - now inversion H.
  - destruct s as [|b s]; [discriminate|].
    destruct (Ascii.eqb a b) eqn:E; [|discriminate].
    apply Ascii.eqb_eq in E; subst b. now rewrite (IH _ H).
Qed.

Lemma stripPrefix_of_app (p r : string) : stripPrefix p (p ++ r) = Some r.
Proof.
  induction p as [|a p IH]; simpl; [reflexivity|].
  now rewrite Ascii.eqb_refl.
Qed.

Lemma startsWith_refl (s : string) : startsWith s s = true.
Proof.
  unfold startsWith.
  replace s with (s ++ "") at 2.
  - now rewrite stripPrefix_of_app.
  - induction s as [|c s IH]; simpl; [reflexivity | now rewrite IH].
Qed.

(** Every string includes itself: an exact match is a substring match. *)
Lemma includes_refl (s : string) : includes s s = true.
Proof. destruct s; cbn [includes]; rewrite startsWith_refl; reflexivity. Qed.

Lemma trim_head (c : ascii) (r : string) :
  isWhiteSpace c = false -> truthy (trim (String c r)) = true.
Proof.
  intros H. unfold trim. simpl trimStart. rewrite H.
  simpl trimEnd. rewrite H, andb_false_r. reflexivity.
Qed.

Lemma includes_char (c : ascii) (s : string) :
  includes s (String c "") = existsChar (Ascii.eqb c) s.
Proof.
  induction s as [|a s IH]; [reflexivity|].
  simpl. rewrite <- IH. unfold startsWith. simpl.
  destruct (Ascii.eqb c a); reflexivity.
Qed.

Lemma existsChar_Exists (p : ascii -> bool) (s : string) :
  existsChar p s = true <->
  Exists (fun c => p c = true) (list_ascii_of_string s).
Proof.
  induction s as [|a s IH]; simpl.
  - split; [discriminate | intros H; inversion H].
  - rewrite orb_true_iff, IH. split.
    + intros [H|H]; [now left | now right].
    + intros H; inversion H; subst; [now left | now right].
Qed.

Lemma forallChar_Forall (p : ascii -> bool) (s : string) :
  forallChar p s = true <->
  Forall (fun c => p c = true) (list_ascii_of_string s).
Proof.
  induction s as [|a s IH]; simpl.
  - split; [constructor | reflexivity].
  - rewrite andb_true_iff, IH. split.
    + intros [H1 H2]; now constructor.
    + intros H; inversion H; subst; now split.
Qed.

Lemma forallChar_existsChar (p : ascii -> bool) (s : string) :
  s <> "" -> forallChar p s = true -> existsChar p s = true.
Proof.
  destruct s as [|a s]; [congruence|]. simpl. intros _ H.
  apply andb_true_iff in H. destruct H as [H _]. now rewrite H.
Qed.

Lemma existsChar_nonempty (p : ascii -> bool) (s : string) :
  existsChar p s = true -> s <> "".
Proof. destruct s; simpl; [discriminate | congruence]. Qed.

End JsFacts.

(* ------------------------------------------------------------------ *)
(** ** Facts about ref resolution *)

Module RefsFacts.
Import Js JsFacts Refs.

(** The ref gets past the empty check, is not a Todoist URL and has no
    [id:] prefix: resolution goes on to the search by name. *)
Definition reachesSearch (ref : string) : Prop :=
  truthy (trim ref) = true /\ parseTodoistUrl ref = None
  /\ isIdRef ref = false.

Definition searchCall (ref : string) : call :=
  GetTasksByFilter ("search: " ++ ref) (Some 10).

Definition searchTasks (api : TodoistApi) (ref : string)
  : response (list Task.t) :=
  getTasksByFilter api ("search: " ++ ref) (Some 10).

(** Candidates whose display text, lowercased, equals the ref lowercased. *)
Definition exactTasks (ref : string) (results : list Task.t) :=
  filter (fun t => toLowerCase (Task.content t) =? toLowerCase ref) results.

(** Candidates whose display text, lowercased, contains the ref lowercased. *)
Definition partialTasks (ref : string) (results : list Task.t) :=
  filter (fun t => includes (toLowerCase (Task.content t)) (toLowerCase ref))
    results.

Definition exactProjects (ref : string) (projects : list Project.t) :=
  filter (fun p => toLowerCase (Project.name p) =? toLowerCase ref) projects.

Definition partialProjects (ref : string) (projects : list Project.t) :=
  filter (fun p => includes (toLowerCase (Project.name p)) (toLowerCase ref))
    projects.

Lemma url_not_blank (ref : string) (p : ParsedUrl) :
  parseTodoistUrl ref = Some p -> truthy (trim ref) = true.
Proof.
  unfold parseTodoistUrl, matchTodoistUrl. intros H.
  destruct (stripPrefix "http" ref) as [r|] eqn:E; [|discriminate].
  apply stripPrefix_app in E. subst ref.
  apply trim_head. reflexivity.
Qed.

Lemma idRef_shape (ref : string) :
  isIdRef ref = true -> ref = "id:" ++ extractId ref.
Proof.
  unfold isIdRef, startsWith. intros H.
  destruct (stripPrefix "id:" ref) as [r|] eqn:E; [|discriminate].
  apply stripPrefix_app in E. subst ref. reflexivity.
Qed.

Lemma idRef_not_blank (ref : string) :
  isIdRef ref = true -> truthy (trim ref) = true.
Proof.
  intros H. rewrite (idRef_shape ref H). apply trim_head. reflexivity.
Qed.

Lemma idRef_not_url (ref : string) :
  isIdRef ref = true -> parseTodoistUrl ref = None.
Proof. intros H. rewrite (idRef_shape ref H). reflexivity. Qed.

(** An exact match is among the substring matches. *)
Lemma exactTasks_partial (ref : string) (results : list Task.t) (t : Task.t) :
  In t (exactTasks ref results) -> In t (partialTasks ref results).
Proof.
  unfold exactTasks, partialTasks. rewrite !filter_In.
  intros [Hin He]. split; [assumption|].
  apply String.eqb_eq in He. rewrite He. apply includes_refl.
Qed.

Lemma exactProjects_partial (ref : string) (ps : list Project.t)
  (p : Project.t) :
  In p (exactProjects ref ps) -> In p (partialProjects ref ps).
Proof.
  unfold exactProjects, partialProjects. rewrite !filter_In.
  intros [Hin He]. split; [assumption|].
  apply String.eqb_eq in He. rewrite He. apply includes_refl.
Qed.

(** Filtering by a stronger test yields no more elements. *)
Lemma filter_length_mono {A} (f g : A -> bool) (l : list A) :
  (forall x, f x = true -> g x = true) ->
  length (filter f l) <= length (filter g l).
Proof.
  intros Hfg. induction l as [|a l IH]; simpl; [lia|].
  destruct (f a) eqn:Ef.
  - rewrite (Hfg a Ef). simpl. lia.
  - destruct (g a); simpl; lia.
Qed.

Lemma exact_le_partial_tasks (ref : string) (results : list Task.t) :
  length (exactTasks ref results) <= length (partialTasks ref results).
Proof.
  apply filter_length_mono. intros t He.
  apply String.eqb_eq in He. rewrite He. apply includes_refl.
Qed.

Lemma exact_le_partial_projects (ref : string) (ps : list Project.t) :
  length (exactProjects ref ps) <= length (partialProjects ref ps).
Proof.
  apply filter_length_mono. intros t He.
  apply String.eqb_eq in He. rewrite He. apply includes_refl.
Qed.

(** Entering the search branch of either resolver. *)
Ltac enter_search H :=
  let Hb := fresh "Hb" in
  let Hu := fresh "Hu" in
  let Hi := fresh "Hi" in
  destruct H as [Hb [Hu Hi]];
  unfold resolveTaskRef, resolveProjectRef;
  rewrite Hb, Hu, Hi; cbn [negb].

Lemma resolveTask_exact (api : TodoistApi) (ref : string)
  (results : list Task.t) (t : Task.t) :
  reachesSearch ref ->
  searchTasks api ref = inr results ->
  exactTasks ref results = [t] ->
  resolveTaskRef api ref = (Returned t, [searchCall ref]).
Proof.
  intros H Hs He. enter_search H.
  unfold searchTasks in Hs. rewrite Hs.
  unfold exactTasks in He. cbv zeta. cbn [await bind].
  rewrite He. reflexivity.
Qed.

Lemma resolveProject_exact (api : TodoistApi) (ref : string)
  (projects : list Project.t) (p : Project.t) :
  reachesSearch ref ->
  getProjects api = inr projects ->
  exactProjects ref projects = [p] ->
  resolveProjectRef api ref = (Returned p, [GetProjects]).
Proof.
  intros H Hs He. enter_search H.
  rewrite Hs. unfold exactProjects in He. cbv zeta. cbn [await bind].
  rewrite He. reflexivity.
Qed.

(** The candidate listing of the ambiguity error. *)
Definition taskCandidates (ref : string) (results : list Task.t)
  : list (string * string) :=
  firstn 5 (map taskCandidate (partialTasks ref results)).

Definition projectCandidates (ref : string) (projects : list Project.t)
  : list (string * string) :=
  firstn 5 (map projectCandidate (partialProjects ref projects)).

Lemma firstn_map_comm {A B} (f : A -> B) (n : nat) (l : list A) :
  map f (firstn n l) = firstn n (map f l).
Proof.
  revert l; induction n as [|n IH]; intros [|a l]; simpl; try reflexivity.
  now rewrite IH.
Qed.

Lemma resolveTask_ambiguous (api : TodoistApi) (ref : string)
  (results : list Task.t) :
  reachesSearch ref ->
  searchTasks api ref = inr results ->
  length (exactTasks ref results) <> 1 ->
  1 < length (partialTasks ref results) ->
  resolveTaskRef api ref =
    (Exited (ambiguousMessage "task" ref (taskCandidates ref results)),
     [searchCall ref]).
Proof.
  intros H Hs He Hp. enter_search H.
  unfold searchTasks in Hs. rewrite Hs.
  unfold taskCandidates. rewrite <- firstn_map_comm.
  unfold exactTasks in He. unfold partialTasks in Hp |- *.
  cbv zeta. cbn [await bind].
  destruct (filter _ results) as [|e1 [|e2 le]] in He |- *;
    [ | exfalso; apply He; reflexivity | ];
    (destruct (filter _ results) as [|p1 [|p2 lp]] in Hp |- *;
     [ simpl in Hp; lia | simpl in Hp; lia | reflexivity ]).
Qed.

Lemma resolveProject_ambiguous (api : TodoistApi) (ref : string)
  (projects : list Project.t) :
  reachesSearch ref ->
  getProjects api = inr projects ->
  length (exactProjects ref projects) <> 1 ->
  1 < length (partialProjects ref projects) ->
  resolveProjectRef api ref =
    (Exited (ambiguousMessage "project" ref (projectCandidates ref projects)),
     [GetProjects]).
Proof.
  intros H Hs He Hp. enter_search H.
  rewrite Hs.
  unfold projectCandidates. rewrite <- firstn_map_comm.
  unfold exactProjects in He. unfold partialProjects in Hp |- *.
  cbv zeta. cbn [await bind].
  destruct (filter _ projects) as [|e1 [|e2 le]] in He |- *;
    [ | exfalso; apply He; reflexivity | ];
    (destruct (filter _ projects) as [|p1 [|p2 lp]] in Hp |- *;
     [ simpl in Hp; lia | simpl in Hp; lia | reflexivity ]).
Qed.

(** [l1] is [l2] with elements left out, order kept. *)
Inductive sublist {A} : list A -> list A -> Prop :=
| sublist_nil : sublist [] []
| sublist_skip x l1 l2 : sublist l1 l2 -> sublist l1 (x :: l2)
| sublist_keep x l1 l2 : sublist l1 l2 -> sublist (x :: l1) (x :: l2).

Lemma sublist_refl {A} (l : list A) : sublist l l.
Proof. induction l; [apply sublist_nil | now apply sublist_keep]. Qed.

Lemma sublist_nil_l {A} (l : list A) : sublist [] l.
Proof. induction l; constructor; assumption. Qed.

Lemma sublist_trans {A} (l1 l2 l3 : list A) :
  sublist l1 l2 -> sublist l2 l3 -> sublist l1 l3.
Proof.
  intros H12 H23. revert l1 H12.
  induction H23 as [|x l2 l3 H IH|x l2 l3 H IH]; intros l1 H12.
  - assumption.
  - constructor. now apply IH.
  - inversion H12; subst.
    + apply sublist_skip. now apply IH.
    + apply sublist_keep. now apply IH.
Qed.

Lemma sublist_filter {A} (f : A -> bool) (l : list A) :
  sublist (filter f l) l.
Proof.
  induction l as [|a l IH]; simpl; [constructor|].
  destruct (f a); [now apply sublist_keep | now apply sublist_skip].
Qed.

Lemma sublist_firstn {A} (n : nat) (l : list A) : sublist (firstn n l) l.
Proof.
  revert l; induction n as [|n IH]; intros [|a l]; simpl.
  - constructor.
  - apply sublist_nil_l.
  - constructor.
  - apply sublist_keep, IH.
Qed.

Lemma sublist_map {A B} (f : A -> B) (l1 l2 : list A) :
  sublist l1 l2 -> sublist (map f l1) (map f l2).
Proof.
  induction 1; simpl;
    [apply sublist_nil | now apply sublist_skip | now apply sublist_keep].
Qed.

(** The listing has at most five entries, each one a substring match,
    in the order of the search response. *)
Lemma taskCandidates_bound (ref : string) (results : list Task.t) :
  length (taskCandidates ref results) <= 5
  /\ sublist (taskCandidates ref results) (map taskCandidate results)
  /\ (forall c, In c (taskCandidates ref results) ->
        includes (toLowerCase (fst c)) (toLowerCase ref) = true).
Proof.
  unfold taskCandidates. split; [|split].
  - rewrite length_firstn. lia.
  - eapply sublist_trans; [apply sublist_firstn|].
    apply sublist_map, sublist_filter.
  - intros c Hc.
    rewrite <- firstn_map_comm in Hc. apply in_map_iff in Hc.
    destruct Hc as [t [<- Ht]].
    assert (Hin : In t (partialTasks ref results)).
    { rewrite <- (firstn_skipn 5). apply in_or_app. now left. }
    apply filter_In in Hin. exact (proj2 Hin).
Qed.

Lemma projectCandidates_bound (ref : string) (projects : list Project.t) :
  length (projectCandidates ref projects) <= 5
  /\ sublist (projectCandidates ref projects) (map projectCandidate projects)
  /\ (forall c, In c (projectCandidates ref projects) ->
        includes (toLowerCase (fst c)) (toLowerCase ref) = true).
Proof.
  unfold projectCandidates. split; [|split].
  - rewrite length_firstn. lia.
  - eapply sublist_trans; [apply sublist_firstn|].
    apply sublist_map, sublist_filter.
  - intros c Hc.
    rewrite <- firstn_map_comm in Hc. apply in_map_iff in Hc.
    destruct Hc as [t [<- Ht]].
    assert (Hin : In t (partialProjects ref projects)).
    { rewrite <- (firstn_skipn 5). apply in_or_app. now left. }
    apply filter_In in Hin. exact (proj2 Hin).
Qed.

(** *** URL refs *)

Definition urlKinds : list string := ["task"; "project"; "label"; "filter"].

Lemma matchKind_In (kinds : list string) (s k r : string) :
  matchKind kinds s = Some (k, r) -> In k kinds.
Proof.
  induction kinds as [|k0 ks IH]; simpl; [discriminate|].
  destruct (stripPrefix (k0 ++ "/") s).
  - intros H; inversion H; subst. now left.
  - intros H. right. now apply IH.
Qed.

Lemma matchAfterScheme_kind (s k slug : string) :
  matchAfterScheme s = Some (k, slug) -> In k urlKinds.
Proof.
  unfold matchAfterScheme.
  destruct (stripPrefix _ s) as [r|]; [|discriminate].
  destruct (matchKind _ r) as [[k' r']|] eqn:E; [|discriminate].
  destruct (fst (span notQueryOrHash r')); [discriminate|].
  intros H; inversion H; subst. exact (matchKind_In _ _ _ _ E).
Qed.

(** The kind segment of a parsed URL is one of the four of the pattern. *)
Lemma parseTodoistUrl_kind (ref : string) (p : ParsedUrl) :
  parseTodoistUrl ref = Some p -> In (type p) urlKinds.
Proof.
  unfold parseTodoistUrl.
  destruct (matchTodoistUrl ref) as [[k slug]|] eqn:E; [|discriminate].
  intros H; inversion H; subst; simpl. clear H.
  unfold matchTodoistUrl in E.
  destruct (stripPrefix "http" ref) as [r|]; [|discriminate].
  destruct (stripPrefix "s" r) as [r'|].
  - destruct (matchAfterScheme r') as [m|] eqn:E'.
    + inversion E; subst. exact (matchAfterScheme_kind _ _ _ E').
    + exact (matchAfterScheme_kind _ _ _ E).
  - exact (matchAfterScheme_kind _ _ _ E).
Qed.

Lemma resolveTask_wrong_kind (api : TodoistApi) (ref : string)
  (p : ParsedUrl) :
  parseTodoistUrl ref = Some p -> type p <> "task" ->
  resolveTaskRef api ref = (Exited (wrongUrlMessage "task" (type p)), []).
Proof.
  intros Hu Hk. unfold resolveTaskRef.
  rewrite (url_not_blank _ _ Hu), Hu. cbn [negb].
  destruct (type p =? "task") eqn:E; [|reflexivity].
  apply String.eqb_eq in E. contradiction.
Qed.

Lemma resolveProject_wrong_kind (api : TodoistApi) (ref : string)
  (p : ParsedUrl) :
  parseTodoistUrl ref = Some p -> type p <> "project" ->
  resolveProjectRef api ref =
    (Exited (wrongUrlMessage "project" (type p)), []).
Proof.
  intros Hu Hk. unfold resolveProjectRef.
  rewrite (url_not_blank _ _ Hu), Hu. cbn [negb].
  destruct (type p =? "project") eqn:E; [|reflexivity].
  apply String.eqb_eq in E. contradiction.
Qed.

(** *** [id:] refs *)

Lemma resolveTask_idRef (api : TodoistApi) (ref : string) :
  isIdRef ref = true ->
  resolveTaskRef api ref =
    await (GetTask (extractId ref)) (getTask api (extractId ref)).
Proof.
  intros Hi. unfold resolveTaskRef.
  rewrite (idRef_not_blank _ Hi), (idRef_not_url _ Hi), Hi. reflexivity.
Qed.

(** *** The raw-id fallback *)

(** The search by name commits to nothing: it throws, or it returns
    results none of which contains the ref. *)
Definition searchFallsThrough (api : TodoistApi) (ref : string) : Prop :=
  (exists e, searchTasks api ref = inl e)
  \/ (exists results,
        searchTasks api ref = inr results /\ partialTasks ref results = []).

(** What the function does from the raw-id fallback on, after the
    search call. *)
Definition fallbackRun (api : TodoistApi) (ref : string) : run Task.t :=
  if looksLikeRawId ref then
    match getTask api ref with
    | inr t => (Returned t, [searchCall ref; GetTask ref])
    | inl _ =>
        (Exited (notFoundMessage "Task" ref), [searchCall ref; GetTask ref])
    end
  else (Exited (notFoundMessage "Task" ref), [searchCall ref]).

Lemma resolveTask_search_throws (api : TodoistApi) (ref e : string) :
  reachesSearch ref -> searchTasks api ref = inl e ->
  resolveTaskRef api ref = fallbackRun api ref.
Proof.
  intros H Hs. enter_search H.
  unfold searchTasks in Hs. rewrite Hs. unfold fallbackRun.
  cbn [await bind tryCatch ret app].
  destruct (looksLikeRawId ref); [|reflexivity].
  destruct (getTask api ref); reflexivity.
Qed.

Lemma resolveTask_no_match (api : TodoistApi) (ref : string)
  (results : list Task.t) :
  reachesSearch ref -> searchTasks api ref = inr results ->
  partialTasks ref results = [] ->
  resolveTaskRef api ref = fallbackRun api ref.
Proof.
  intros H Hs Hp.
  assert (He : exactTasks ref results = []).
  { pose proof (exact_le_partial_tasks ref results) as Hle.
    rewrite Hp in Hle. simpl in Hle.
    destruct (exactTasks ref results); [reflexivity | simpl in Hle; lia]. }
  enter_search H.
  unfold searchTasks in Hs. rewrite Hs. unfold fallbackRun.
  unfold exactTasks in He. unfold partialTasks in Hp.
  cbv zeta. cbn [await bind]. rewrite He, Hp.
  cbn [tryCatch ret app bind].
  destruct (looksLikeRawId ref); [|reflexivity].
  destruct (getTask api ref); reflexivity.
Qed.

Lemma resolveTask_falls_through (api : TodoistApi) (ref : string) :
  reachesSearch ref -> searchFallsThrough api ref ->
  resolveTaskRef api ref = fallbackRun api ref.
Proof.
  intros H [[e He]|[results [Hs Hp]]].
  - exact (resolveTask_search_throws _ _ _ H He).
  - exact (resolveTask_no_match _ _ _ H Hs Hp).
Qed.

Lemma existsChar_eqb_In (c : ascii) (s : string) :
  existsChar (Ascii.eqb c) s = true <-> In c (list_ascii_of_string s).
Proof.
  rewrite existsChar_Exists, Exists_exists. split.
  - intros [x [Hin Hx]]. apply Ascii.eqb_eq in Hx. now subst.
  - intros Hin. exists c. split; [assumption | apply Ascii.eqb_refl].
Qed.

(** What [looksLikeRawId] accepts, character by character. *)
Lemma looksLikeRawId_spec (ref : string) :
  let chars := list_ascii_of_string ref in
  looksLikeRawId ref = true <->
  ~ In " "%char chars
  /\ ((ref <> "" /\ Forall (fun c => isDigit c = true) chars)
      \/ (Exists (fun c => isAsciiLetter c = true) chars
          /\ Exists (fun c => isDigit c = true) chars)).
Proof.
  cbv zeta. unfold looksLikeRawId. rewrite includes_char.
  rewrite <- forallChar_Forall, <- !existsChar_Exists.
  rewrite <- existsChar_eqb_In.
  destruct (existsChar (Ascii.eqb " ") ref).
  - split; [discriminate | intros [H _]; now elim H].
  - rewrite orb_true_iff, !andb_true_iff. split.
    + intros [[H1 H2]|H]; (split; [discriminate|]).
      * left. split; [exact (existsChar_nonempty _ _ H1) | assumption].
      * now right.
    + intros [_ [[H1 H2]|H]].
      * left. split; [now apply forallChar_existsChar | assumption].
      * now right.
Qed.

(** The test as the specification words it: no whitespace, and either all
    digits, or alphanumeric with at least one letter and one digit. *)
Definition specLooksLikeId (ref : string) : bool :=
  negb (existsChar isWhiteSpace ref)
  && ((existsChar isDigit ref && forallChar isDigit ref)
      || (forallChar (fun c => isAsciiLetter c || isDigit c) ref
          && existsChar isAsciiLetter ref && existsChar isDigit ref)).

End RefsFacts.

(* ------------------------------------------------------------------ *)
(** ** Formatting *)

Module Format.
Import Js.

(** [a ?? b] *)
Definition coalesce {A} (a b : option A) : option A :=
  match a with
  | Some x => Some x
  | None => b
  end.

(** The output shape.  In [description], [labels], [sectionId] and
    [parentId], [None] is [undefined] (the key is left out of the JSON);
    in [due], [dueString] and [deadline] it is [null]. *)
Record FormattedTask := {
  id : string;
  content : string;
  description : option string;
  priority : Z;
  due : option string;
  dueString : option string;
  isRecurring : bool;
  deadline : option string;
  labels : option (list string);
  projectId : string;
  sectionId : option string;
  parentId : option string;
  url : string
}.

Definition formatTask (t : Task.t) : FormattedTask :=
  {| id := Task.id t;
     content := Task.content t;
     description :=
       if truthy (Task.description t) then Some (Task.description t)
       else None;
     priority := Task.priority t;
     due :=
       coalesce
         (match Task.due t with Some d => Due.date d | None => None end)
         (coalesce
            (match Task.due t with Some d => Due.datetime d | None => None end)
            None);
     dueString :=
       coalesce
         (match Task.due t with Some d => Some (Due.string d) | None => None end)
         None;
     isRecurring :=
       match Task.due t with
       | Some d => Due.isRecurring d
       | None => false
       end;
     deadline :=
       coalesce
         (match Task.deadline t with
          | Some d => Some (Deadline.date d)
          | None => None
          end)
         None;
     labels :=
       match Task.labels t with
       | [] => None
       | _ :: _ => Some (Task.labels t)
       end;
     projectId := Task.projectId t;
     sectionId := Task.sectionId t;
     parentId := Task.parentId t;
     url := Task.url t |}.

End Format.

(* ------------------------------------------------------------------ *)
(** ** Dates and the review dashboard *)

Module JsDate.
Import Js.

(** The host's clock.  A [Date] is its time value in milliseconds since
    the epoch, [None] for an invalid date.  The time zone is asked at the
    two points where the program needs it: [utcOffsetMinutes] is local
    time minus UTC at [now], by which the local day is read off, and
    [utcOffsetAtMidnight] is local time minus UTC as the host applies it
    to the midnight that starts that local day (the two differ on the
    day of a change of offset).  [parseOther] is the engine's
    [Date.parse] on every string that is not a calendar date of the form
    YYYY-MM-DD. *)
Record Clock := {
  now : Z;
  utcOffsetMinutes : Z;
  utcOffsetAtMidnight : Z;
  parseOther : string -> option Z
}.

Definition msPerMinute : Z := 60000.
Definition msPerDay : Z := 86400000.

Definition digitValue (c : ascii) : Z := Z.of_nat (code c) - 48.

Definition isLeapYear (y : Z) : bool :=
  ((y mod 4 =? 0) && negb (y mod 100 =? 0) || (y mod 400 =? 0))%Z.

Definition daysInMonth (y m : Z) : Z :=
  (if m =? 2 then (if isLeapYear y then 29 else 28)
   else if (m =? 4) || (m =? 6) || (m =? 9) || (m =? 11) then 30
   else 31)%Z.

(** Day number of a calendar date, counted from 1970-01-01. *)
Definition daysFromCivil (y m d : Z) : Z :=
  (let y' := if m <=? 2 then y - 1 else y in
   let era := y' / 400 in
   let yoe := y' - era * 400 in
   let mp := if m >? 2 then m - 3 else m + 9 in
   let doy := (153 * mp + 2) / 5 + d - 1 in
   let doe := yoe * 365 + yoe / 4 - yoe / 100 + doy in
   era * 146097 + doe - 719468)%Z.

(** A string of the form YYYY-MM-DD naming a day of the calendar. *)
Definition parseDateOnly (s : string) : option (Z * Z * Z) :=
  match list_ascii_of_string s with
  | [y1; y2; y3; y4; h1; m1; m2; h2; d1; d2] =>
      if forallb isDigit [y1; y2; y3; y4; m1; m2; d1; d2]
         && Ascii.eqb h1 "-"%char && Ascii.eqb h2 "-"%char
      then
        (let y := digitValue y1 * 1000 + digitValue y2 * 100
                  + digitValue y3 * 10 + digitValue y4 in
         let m := digitValue m1 * 10 + digitValue m2 in
         let d := digitValue d1 * 10 + digitValue d2 in
         if (1 <=? m) && (m <=? 12) && (1 <=? d) && (d <=? daysInMonth y m)
         then Some (y, m, d) else None)%Z
      else None
  | _ => None
  end.

(** [new Date(s)]: a date-only string is midnight UTC of that day. *)
Definition newDate (c : Clock) (s : string) : option Z :=
  match parseDateOnly s with
  | Some (y, m, d) => Some (daysFromCivil y m d * msPerDay)%Z
  | None => parseOther c s
  end.

(** [d = new Date(); d.setHours(0, 0, 0, 0)]: the local time of [now]
    with its time of day set to zero, read back as a time value with
    the offset that holds at that midnight. *)
Definition startOfLocalDay (c : Clock) : Z :=
  (let localNow := now c + utcOffsetMinutes c * msPerMinute in
   let localMidnight := localNow / msPerDay * msPerDay in
   localMidnight - utcOffsetAtMidnight c * msPerMinute)%Z.

(** [a < b] on dates; a comparison with an invalid date is false. *)
Definition dateLt (a : option Z) (b : Z) : bool :=
  match a with
  | Some x => (x <? b)%Z
  | None => false
  end.

(** The calendar day the local clock shows, as a day number. *)
Definition localDay (c : Clock) : Z :=
  ((now c + utcOffsetMinutes c * msPerMinute) / msPerDay)%Z.

End JsDate.

Module Review.
Import Js JsDate Format.

(** The callback of the [overdue] filter. *)
Definition isOverdue (c : Clock) (t : Task.t) : bool :=
  let today := startOfLocalDay c in
  match Task.due t with
  | None => false
  | Some d =>
      match Due.date d with
      | None => false
      | Some date =>
          if negb (truthy date) then false
          else dateLt (newDate c date) today
      end
  end.

Definition overdue (c : Clock) (allTasks : list Task.t) : list Task.t :=
  filter (isOverdue c) allTasks.

Record TaskList := { count : nat; tasks : list FormattedTask }.

Record ProjectCount := {
  pc_id : string;
  pc_name : string;
  taskCount : nat
}.

Record ReviewResult := {
  r_today : TaskList;
  r_inbox : TaskList;
  r_overdue : TaskList;
  r_floating : nat;
  r_projects : list ProjectCount;
  r_total : nat
}.

Definition taskList (ts : list Task.t) : TaskList :=
  {| count := length ts; tasks := map formatTask ts |}.

(** The result [cmdReview] prints, from the three awaited responses. *)
Definition cmdReview (c : Clock) (todayTasks allTasks : list Task.t)
  (projects : list Project.t) : ReviewResult :=
  let inbox := find Project.isInboxProject projects in
  let inboxTasks :=
    match inbox with
    | Some ib =>
        filter (fun t => Task.projectId t =? Project.id ib) allTasks
    | None => []
    end in
  let noDue :=
    filter (fun t => match Task.due t with None => true | Some _ => false end)
      allTasks in
  {| r_today := taskList todayTasks;
     r_inbox := taskList inboxTasks;
     r_overdue := taskList (overdue c allTasks);
     r_floating := length noDue;
     r_projects :=
       map (fun p =>
              {| pc_id := Project.id p;
                 pc_name := Project.name p;
                 taskCount :=
                   length (filter (fun t => Task.projectId t =? Project.id p)
                             allTasks) |})
         (filter (fun p => negb (Project.isInboxProject p)) projects);
     r_total := length allTasks |}.

End Review.

(* ------------------------------------------------------------------ *)
(** ** Reminders *)

Module Reminder.
Import Js Refs.

(** The answer of [fetch]: the [ok] flag and the HTTP status. *)
Record FetchResponse := { ok : bool; status : nat }.

(** What the command reads from its surroundings: the environment
    variable, the output of the secrets command ([None] when it fails),
    the remote service, the two UUIDs drawn and the Sync endpoint. *)
Record Host := {
  env_TODOIST_API_TOKEN : option string;
  secretsLease : option string;
  api : TodoistApi;
  randomUUID : string * string;
  fetchSync : call -> response FetchResponse
}.

Definition noTokenMessage : string :=
  "No TODOIST_API_TOKEN found. Set it via:" ++ nl ++
  "  export TODOIST_API_TOKEN=<token>          # env var" ++ nl ++
  "  secrets add todoist_api_token              # agent-secrets" ++ nl ++
  "Get your token at: https://app.todoist.com/app/settings/integrations/developer".

Definition getToken (h : Host) : run string :=
  if truthyOpt (env_TODOIST_API_TOKEN h)
  then ret (match env_TODOIST_API_TOKEN h with Some t => t | None => "" end)
  else
    match secretsLease h with
    | Some out =>
        if truthy (trim out) then ret (trim out) else fatal noTokenMessage
    | None => fatal noTokenMessage
    end.

Definition getApi (h : Host) : run TodoistApi :=
  _ <- getToken h ;; ret (api h).

(** [parseInt] on a string of digits, as the integer the digits denote.
    The program holds that integer as a double, which is the same number
    as long as it is at most 2^53; so are the products and sums formed
    from it in [parseDuration].  Beyond that the double is a rounding of
    the integer. *)
Fixpoint parseDigits (acc : Z) (s : string) : Z :=
  match s with
  | EmptyString => acc
  | String c r => parseDigits (acc * 10 + (Z.of_nat (code c) - 48)) r
  end.

(** The first match of [(\d+)\s*x] in [s], ignoring the case of the
    letter [x]; the result is the first capture group.  What the
    pattern allows after the letter is optional and does not change
    the group. *)
Fixpoint matchDigitsThen (x : ascii) (s : string) : option string :=
  match s with
  | EmptyString => None
  | String c r =>
      let here :=
        if isDigit c then
          let (digits, rest) := span isDigit s in
          match snd (span isWhiteSpace rest) with
          | String l _ =>
              if Ascii.eqb (lowerChar l) x then Some digits else None
          | EmptyString => None
          end
        else None in
      match here with
      | Some digits => Some digits
      | None => matchDigitsThen x r
      end
  end.

Definition parseDuration (s : string) : option Z :=
  let total := 0%Z in
  let matched := false in
  (* /(\d+)\s*h(?:ours?)?/i, 60 *)
  let '(total, matched) :=
    match matchDigitsThen "h" s with
    | Some m1 => ((total + parseDigits 0 m1 * 60)%Z, true)
    | None => (total, matched)
    end in
  (* /(\d+)\s*m(?:in(?:utes?)?)?/i, 1 *)
  let '(total, matched) :=
    match matchDigitsThen "m" s with
    | Some m1 => ((total + parseDigits 0 m1 * 1)%Z, true)
    | None => (total, matched)
    end in
  let '(total, matched) :=
    if negb matched
       && (existsChar isDigit (trim s) && forallChar isDigit (trim s))
    then (parseDigits 0 (trim s), true)
    else (total, matched) in
  if matched then Some total else None.

Record Envelope (R : Type) := {
  command : string;
  result : R;
  next_actions : list (string * string)
}.
Arguments command {R}.
Arguments result {R}.
Arguments next_actions {R}.

Record ReminderAdded := {
  task_id : string;
  task_content : string;
  reminder : string
}.

Definition showNat (n : nat) : string :=
  DecimalString.NilZero.string_of_uint (Nat.to_uint n).

Definition cmdReminderAdd (h : Host) (ref : string)
  (before at_ : option string) : run (Envelope ReminderAdded) :=
  if negb (truthyOpt before) && negb (truthyOpt at_)
  then fatal "Must specify --before <duration> or --at <datetime>"
  else
    api <- getApi h ;;
    task <- resolveTaskRef api ref ;;
    minuteOffset <-
      (match before with
       | Some b =>
           if truthy b then
             match parseDuration b with
             | None =>
                 fatal ("Invalid duration " ++ dq ++ b ++ dq
                        ++ ". Examples: 30m, 1h, 2h30m")
             | Some minutes =>
                 match Task.due task with
                 | None =>
                     fatal "Cannot use --before: task has no due date. Use --at instead."
                 | Some _ => ret (Some minutes)
                 end
             end
           else ret None
       | None => ret None
       end) ;;
    let due := if truthyOpt at_ then at_ else None in
    token <- getToken h ;;
    let request :=
      SyncReminderAdd token (fst (randomUUID h)) (snd (randomUUID h))
        (Task.id task) minuteOffset due in
    resp <- await request (fetchSync h request) ;;
    if negb (ok resp)
    then fatal ("Reminder API error: " ++ showNat (status resp))
    else
      ret {| command := "todoist-cli reminder-add";
             result :=
               {| task_id := Task.id task;
                  task_content := Task.content task;
                  reminder :=
                    match before with
                    | Some b =>
                        if truthy b then b ++ " before due"
                        else "at " ++ match at_ with Some a => a | None => "undefined" end
                    | None =>
                        "at " ++ match at_ with Some a => a | None => "undefined" end
                    end |};
             next_actions :=
               [("todoist-cli reminders " ++ Task.id task,
                 "List reminders for this task")] |}.

End Reminder.

(* ------------------------------------------------------------------ *)
(** ** Facts about the overdue test *)

Module ReviewFacts.
Import Js JsDate Review.

Lemma startOfLocalDay_eq (c : Clock) :
  startOfLocalDay c
  = (localDay c * msPerDay - utcOffsetAtMidnight c * msPerMinute)%Z.
Proof. reflexivity. Qed.

Lemma parseDateOnly_truthy (s : string) (ymd : Z * Z * Z) :
  parseDateOnly s = Some ymd -> truthy s = true.
Proof. destruct s; [discriminate | reflexivity]. Qed.

(** The test on a task whose due date is the calendar day [y-m-d]. *)
Lemma isOverdue_dateOnly (c : Clock) (t : Task.t) (d : Due.t)
  (date : string) (y m dd : Z) :
  Task.due t = Some d -> Due.date d = Some date ->
  parseDateOnly date = Some (y, m, dd) ->
  isOverdue c t
  = (daysFromCivil y m dd * msPerDay
     <? localDay c * msPerDay - utcOffsetAtMidnight c * msPerMinute)%Z.
Proof.
  intros Hd Hdate Hp. unfold isOverdue, newDate.
  rewrite Hd, Hdate, (parseDateOnly_truthy _ _ Hp), Hp. reflexivity.
Qed.

(** A task due on the current local day counts as overdue exactly when
    local time was behind UTC at the midnight that started the day. *)
Lemma isOverdue_due_today (c : Clock) (t : Task.t) (d : Due.t)
  (date : string) (y m dd : Z) :
  Task.due t = Some d -> Due.date d = Some date ->
  parseDateOnly date = Some (y, m, dd) ->
  daysFromCivil y m dd = localDay c ->
  isOverdue c t = (utcOffsetAtMidnight c <? 0)%Z.
Proof.
  intros Hd Hdate Hp Hday.
  rewrite (isOverdue_dateOnly c t d date y m dd Hd Hdate Hp), Hday.
  unfold msPerMinute.
  destruct (Z.ltb_spec (utcOffsetAtMidnight c) 0);
    [apply Z.ltb_lt | apply Z.ltb_ge]; lia.
Qed.

(** A task due the day before counts as overdue in every time zone. *)
Lemma isOverdue_due_yesterday (c : Clock) (t : Task.t) (d : Due.t)
  (date : string) (y m dd : Z) :
  Task.due t = Some d -> Due.date d = Some date ->
  parseDateOnly date = Some (y, m, dd) ->
  daysFromCivil y m dd = (localDay c - 1)%Z ->
  (utcOffsetAtMidnight c < 1440)%Z ->
  isOverdue c t = true.
Proof.
  intros Hd Hdate Hp Hday Hoff.
  rewrite (isOverdue_dateOnly c t d date y m dd Hd Hdate Hp), Hday.
  unfold msPerMinute, msPerDay. apply Z.ltb_lt. lia.
Qed.

End ReviewFacts.

(* ------------------------------------------------------------------ *)
(** ** Sample data *)

Module Samples.
Import Js Refs.

Definition task (id content : string) : Task.t :=
  Task.mk id content "" 1 None None [] "p1" None None
    ("https://app.todoist.com/app/task/" ++ id).

Definition project (id name : string) : Project.t :=
  Project.mk id name false.

Definition errandTasks : list Task.t :=
  [ task "11" "Run errands downtown";
    task "12" "Errands";
    task "13" "errands for mum" ].

Definition errandProjects : list Project.t :=
  [ project "21" "Errands 2025"; project "22" "ERRANDS" ].

Definition deployTasks : list Task.t :=
  [ task "1" "Deploy pipeline"; task "2" "Deploy worker";
    task "3" "Write docs" ].

Definition deployProjects : list Project.t :=
  [ project "7" "Deployments"; project "8" "Redeploy infra" ].

(** Seven search results: five that contain the ref, then two that
    equal it up to case. *)
Definition crowdedTasks : list Task.t :=
  [ task "1" "deploy api"; task "2" "deploy web"; task "3" "deploy db";
    task "4" "deploy docs"; task "5" "deploy cron";
    task "6" "Deploy"; task "7" "deploy" ].

(** Six projects whose names contain the same word. *)
Definition crowdedProjects : list Project.t :=
  [ project "31" "Deploy api"; project "32" "Deploy web";
    project "33" "Redeploy db"; project "34" "deploy docs";
    project "35" "Deploy cron"; project "36" "Pre-deploy checks";
    project "37" "Garden" ].

(** A service on which every fetch by id is rejected. *)
Definition service (tasks : list Task.t) (projects : list Project.t)
  : TodoistApi :=
  {| getTask := fun _ => inl "HTTP 404";
     getTasksByFilter := fun _ _ => inr tasks;
     getTasks := fun _ => inr tasks;
     getProject := fun _ => inl "HTTP 404";
     getProjects := inr projects |}.

(** A service whose search is down. *)
Definition searchDown : TodoistApi :=
  {| getTask := fun _ => inl "HTTP 404";
     getTasksByFilter := fun _ _ => inl "ECONNRESET";
     getTasks := fun _ => inl "ECONNRESET";
     getProject := fun _ => inl "HTTP 404";
     getProjects := inl "ECONNRESET" |}.

End Samples.

(* ------------------------------------------------------------------ *)
(** ** The text of a candidate listing *)

Module ListingFacts.
Import Js JsFacts.

Lemma append_nil_right (s : string) : s ++ "" = s.
Proof. induction s as [|c s IH]; cbn [append]; [reflexivity | now rewrite IH]. Qed.

Lemma append_shift (a b c : string) : (a ++ b) ++ c = a ++ b ++ c.
Proof. induction a as [|x a IH]; cbn [append]; [reflexivity | now rewrite IH]. Qed.

Lemma includes_of_startsWith (s sub : string) :
  startsWith s sub = true -> includes s sub = true.
Proof. intros H. destruct s; cbn [includes]; rewrite H; reflexivity. Qed.

(** What a text includes, a longer text includes. *)
Lemma includes_after (a s sub : string) :
  includes s sub = true -> includes (a ++ s) sub = true.
Proof.
  intros H. induction a as [|c a IH]; [exact H|].
  cbn [append includes]. rewrite IH. apply orb_true_r.
Qed.

Lemma includes_middle (a b c : string) : includes (a ++ b ++ c) b = true.
Proof.
  apply includes_after, includes_of_startsWith.
  unfold startsWith. now rewrite stripPrefix_of_app.
Qed.

(** Joining texts keeps each of them, whole. *)
Lemma concat_keeps (sep x : string) (xs : list string) :
  In x xs -> exists pre post, String.concat sep xs = pre ++ x ++ post.
Proof.
  induction xs as [|y ys IH]; intros Hin; [destruct Hin|].
  destruct Hin as [->|Hin].
  - destruct ys as [|z zs].
    + exists "", "". cbn [String.concat append].
      now rewrite append_nil_right.
    + exists "", (sep ++ String.concat sep (z :: zs)). reflexivity.
  - destruct ys as [|z zs]; [destruct Hin|].
    destruct (IH Hin) as [pre [post E]].
    exists (y ++ sep ++ pre), post.
    change (String.concat sep (y :: z :: zs))
      with (y ++ sep ++ String.concat sep (z :: zs)).
    rewrite E, !append_shift. reflexivity.
Qed.

(** A joined listing includes the line of each of its entries. *)
Lemma listing_includes_line {A} (sep : string) (line : A -> string)
  (xs : list A) (x : A) :
  In x xs -> includes (String.concat sep (map line xs)) (line x) = true.
Proof.
  intros Hin.
  destruct (concat_keeps sep (line x) (map line xs) (in_map line xs x Hin))
    as [pre [post E]].
  rewrite E. apply includes_middle.
Qed.

End ListingFacts.

(* ------------------------------------------------------------------ *)
(** ** The resolver's properties *)

Module ResolverSpec.
Import Js JsFacts Refs RefsFacts Samples ListingFacts.

(** C1. When the ref, lowercased, equals the lowercased display text of
    exactly one candidate of the search results, [resolveTaskRef]
    returns that candidate, whatever other candidates contain the ref;
    [resolveProjectRef] does the same over the project listing, with
    the project name as display text. *)
Theorem C1_unique_exact_match_wins
  (api : TodoistApi) (ref : string)
  (results : list Task.t) (t : Task.t)
  (projects : list Project.t) (p : Project.t) :
  reachesSearch ref ->
  (searchTasks api ref = inr results ->
   exactTasks ref results = [t] ->
   resolveTaskRef api ref = (Returned t, [searchCall ref]))
  /\ (getProjects api = inr projects ->
      exactProjects ref projects = [p] ->
      resolveProjectRef api ref = (Returned p, [GetProjects])).
Proof.
  intros H. split.
  - intros Hs He. exact (resolveTask_exact api ref results t H Hs He).
  - intros Hs He. exact (resolveProject_exact api ref projects p H Hs He).
Qed.

Lemma C1_unique_exact_match_wins_witness :
  reachesSearch "errands"
  /\ length (partialTasks "errands" errandTasks) = 3
  /\ resolveTaskRef (service errandTasks errandProjects) "errands"
     = (Returned (task "12" "Errands"), [searchCall "errands"])
  /\ resolveProjectRef (service errandTasks errandProjects) "errands"
     = (Returned (project "22" "ERRANDS"), [GetProjects]).
Proof.
  assert (H : reachesSearch "errands") by (repeat split; reflexivity).
  destruct (C1_unique_exact_match_wins
              (service errandTasks errandProjects) "errands"
              errandTasks (task "12" "Errands")
              errandProjects (project "22" "ERRANDS") H) as [HT HP].
  split; [exact H|]. split; [reflexivity|]. split.
  - apply HT; reflexivity.
  - apply HP; reflexivity.
Defined.

(** C2. When the ref is a case-insensitive substring of the display text
    of more than one candidate and there is no unique exact match, both
    resolvers fail with the ambiguity error.  Its text is the heading
    that quotes the ref, then one line per listed candidate, quoting the
    display text and giving the id; the listed candidates are the first
    five of the substring matches, so at most five (display text, id)
    pairs, in the order of the search response or listing. *)
Theorem C2_ambiguous_substring_lists_at_most_five
  (api : TodoistApi) (ref : string)
  (results : list Task.t) (projects : list Project.t) :
  let q := String "034"%char "" in
  let lf := String "010"%char "" in
  let line := fun c : string * string =>
    "  " ++ q ++ fst c ++ q ++ " (id:" ++ snd c ++ ")" in
  let listing := fun (kind : string) (cands : list (string * string)) =>
    "Ambiguous " ++ kind ++ " " ++ q ++ ref ++ q ++ ". Matches:" ++ lf
      ++ String.concat lf (map line cands) in
  reachesSearch ref ->
  (getTasksByFilter api ("search: " ++ ref) (Some 10) = inr results ->
   length (exactTasks ref results) <> 1 ->
   1 < length (partialTasks ref results) ->
   exists cands,
     cands = firstn 5 (map (fun t => (Task.content t, Task.id t))
                         (partialTasks ref results))
     /\ length cands <= 5
     /\ sublist cands (map (fun t => (Task.content t, Task.id t)) results)
     /\ resolveTaskRef api ref
        = (Exited (listing "task" cands),
           [GetTasksByFilter ("search: " ++ ref) (Some 10)])
     /\ (forall c, In c cands ->
           includes (listing "task" cands) (line c) = true))
  /\ (getProjects api = inr projects ->
      length (exactProjects ref projects) <> 1 ->
      1 < length (partialProjects ref projects) ->
      exists cands,
        cands = firstn 5 (map (fun p => (Project.name p, Project.id p))
                            (partialProjects ref projects))
        /\ length cands <= 5
        /\ sublist cands
             (map (fun p => (Project.name p, Project.id p)) projects)
        /\ resolveProjectRef api ref
           = (Exited (listing "project" cands), [GetProjects])
        /\ (forall c, In c cands ->
              includes (listing "project" cands) (line c) = true)).
Proof.
  cbv beta zeta. intros H. split.
  - intros Hs He Hp. exists (taskCandidates ref results).
    destruct (taskCandidates_bound ref results) as [Hlen [Hsub _]].
    split; [reflexivity|]. split; [exact Hlen|]. split; [exact Hsub|].
    split.
    + rewrite (resolveTask_ambiguous api ref results H Hs He Hp).
      reflexivity.
    + intros c Hc. do 8 apply includes_after.
      exact (listing_includes_line _ _ _ c Hc).
  - intros Hs He Hp. exists (projectCandidates ref projects).
    destruct (projectCandidates_bound ref projects) as [Hlen [Hsub _]].
    split; [reflexivity|]. split; [exact Hlen|]. split; [exact Hsub|].
    split.
    + rewrite (resolveProject_ambiguous api ref projects H Hs He Hp).
      reflexivity.
    + intros c Hc. do 8 apply includes_after.
      exact (listing_includes_line _ _ _ c Hc).
Qed.

Lemma C2_ambiguous_substring_lists_at_most_five_witness :
  let q := String "034"%char "" in
  let lf := String "010"%char "" in
  reachesSearch "deploy"
  /\ length (partialTasks "deploy" crowdedTasks) = 7
  /\ resolveTaskRef (service crowdedTasks crowdedProjects) "deploy"
     = (Exited
          ("Ambiguous task " ++ q ++ "deploy" ++ q ++ ". Matches:" ++ lf
           ++ "  " ++ q ++ "deploy api" ++ q ++ " (id:1)" ++ lf
           ++ "  " ++ q ++ "deploy web" ++ q ++ " (id:2)" ++ lf
           ++ "  " ++ q ++ "deploy db" ++ q ++ " (id:3)" ++ lf
           ++ "  " ++ q ++ "deploy docs" ++ q ++ " (id:4)" ++ lf
           ++ "  " ++ q ++ "deploy cron" ++ q ++ " (id:5)"),
        [GetTasksByFilter "search: deploy" (Some 10)])
  /\ length (partialProjects "deploy" crowdedProjects) = 6
  /\ resolveProjectRef (service crowdedTasks crowdedProjects) "deploy"
     = (Exited
          ("Ambiguous project " ++ q ++ "deploy" ++ q ++ ". Matches:" ++ lf
           ++ "  " ++ q ++ "Deploy api" ++ q ++ " (id:31)" ++ lf
           ++ "  " ++ q ++ "Deploy web" ++ q ++ " (id:32)" ++ lf
           ++ "  " ++ q ++ "Redeploy db" ++ q ++ " (id:33)" ++ lf
           ++ "  " ++ q ++ "deploy docs" ++ q ++ " (id:34)" ++ lf
           ++ "  " ++ q ++ "Deploy cron" ++ q ++ " (id:35)"),
        [GetProjects]).
Proof.
  cbv zeta.
  assert (H : reachesSearch "deploy") by (repeat split; reflexivity).
  destruct (C2_ambiguous_substring_lists_at_most_five
              (service crowdedTasks crowdedProjects) "deploy"
              crowdedTasks crowdedProjects H) as [HT HP].
  destruct HT as [ct [Hct [_ [_ [Hrun _]]]]];
    [reflexivity | simpl; discriminate | simpl; lia |].
  destruct HP as [cp [Hcp [_ [_ [Hrunp _]]]]];
    [reflexivity | simpl; discriminate | simpl; lia |].
  subst ct cp.
  split; [exact H|]. split; [reflexivity|]. split; [exact Hrun|].
  split; [reflexivity | exact Hrunp].
Defined.

(** C3. A ref that matches the Todoist URL pattern with a kind segment
    other than the requested one makes the resolver fail with the
    wrong-URL-kind error, which names that kind; no remote call is
    made, so neither the [id:] strategy, nor the search, nor the raw-id
    fallback is tried. *)
Theorem C3_wrong_url_kind_is_terminal
  (api : TodoistApi) (ref : string) (p : ParsedUrl) :
  parseTodoistUrl ref = Some p ->
  In (type p) ["task"; "project"; "label"; "filter"]
  /\ (type p <> "task" ->
      resolveTaskRef api ref
      = (Exited ("Expected a task URL, got " ++ type p ++ " URL."), []))
  /\ (type p <> "project" ->
      resolveProjectRef api ref
      = (Exited ("Expected a project URL, got " ++ type p ++ " URL."), [])).
Proof.
  intros Hu. split; [exact (parseTodoistUrl_kind ref p Hu)|]. split.
  - intros Hk. exact (resolveTask_wrong_kind api ref p Hu Hk).
  - intros Hk. exact (resolveProject_wrong_kind api ref p Hu Hk).
Qed.

Lemma C3_wrong_url_kind_is_terminal_witness :
  parseTodoistUrl "https://app.todoist.com/app/label/urgent-2156"
  = Some {| type := "label"; id := "2156" |}
  /\ resolveTaskRef (service deployTasks deployProjects)
       "https://app.todoist.com/app/label/urgent-2156"
     = (Exited "Expected a task URL, got label URL.", [])
  /\ resolveProjectRef (service deployTasks deployProjects)
       "https://app.todoist.com/app/label/urgent-2156"
     = (Exited "Expected a project URL, got label URL.", []).
Proof.
  assert (Hu : parseTodoistUrl "https://app.todoist.com/app/label/urgent-2156"
               = Some {| type := "label"; id := "2156" |}) by reflexivity.
  destruct (C3_wrong_url_kind_is_terminal
              (service deployTasks deployProjects) _ _ Hu) as [_ [HT HP]].
  split; [exact Hu|]. split.
  - apply HT. simpl. discriminate.
  - apply HP. simpl. discriminate.
Defined.

(** C4, as the code has it.  A ref with the prefix [id:] is the prefix
    followed by the id; [resolveTaskRef] fetches that id and makes no
    other remote call, whatever the tasks are named.  When the fetch
    succeeds its task is returned; when it fails, the error of the
    fetch is thrown on unchanged, and [main] reports it as a failure of
    the command. *)
Theorem C4_id_prefix_fetches_directly
  (api : TodoistApi) (ref : string) :
  isIdRef ref = true ->
  ref = "id:" ++ extractId ref
  /\ snd (resolveTaskRef api ref) = [GetTask (extractId ref)]
  /\ (forall t, getTask api (extractId ref) = inr t ->
        fst (resolveTaskRef api ref) = Returned t)
  /\ (forall e cmd, getTask api (extractId ref) = inl e ->
        fst (resolveTaskRef api ref) = Thrown e
        /\ fst (mainCatch cmd (resolveTaskRef api ref))
           = Exited (cmd ++ " failed: " ++ e)).
Proof.
  intros Hi. split; [exact (idRef_shape ref Hi)|].
  rewrite (resolveTask_idRef api ref Hi). unfold await.
  destruct (getTask api (extractId ref)) as [e0|t0].
  - split; [reflexivity|]. split; [discriminate|].
    intros e cmd He. inversion He; subst. split; reflexivity.
  - split; [reflexivity|]. split.
    + intros t Ht. inversion Ht; subst. reflexivity.
    + discriminate.
Qed.

Lemma C4_id_prefix_fetches_directly_witness :
  isIdRef "id:Errands" = true
  /\ snd (resolveTaskRef (service errandTasks errandProjects) "id:Errands")
     = [GetTask "Errands"]
  /\ fst (resolveTaskRef (service errandTasks errandProjects) "id:Errands")
     = Thrown "HTTP 404".
Proof.
  assert (Hi : isIdRef "id:Errands" = true) by reflexivity.
  destruct (C4_id_prefix_fetches_directly
              (service errandTasks errandProjects) "id:Errands" Hi)
    as [_ [Htr [_ Hfail]]].
  split; [exact Hi|]. split; [exact Htr|].
  exact (proj1 (Hfail "HTTP 404" "show" eq_refl)).
Defined.

(** C4 as stated fails: the failure of the direct fetch is not the
    not-found error. *)
Lemma C4_id_fetch_failure_is_not_NotFound :
  isIdRef "id:123" = true
  /\ resolveTaskRef (service [] []) "id:123"
     = (Thrown "HTTP 404", [GetTask "123"])
  /\ fst (resolveTaskRef (service [] []) "id:123")
     <> Exited (notFoundMessage "Task" "id:123")
  /\ fst (mainCatch "show" (resolveTaskRef (service [] []) "id:123"))
     = Exited "show failed: HTTP 404".
Proof. repeat split; try reflexivity. discriminate. Qed.

(** C5. When the search call throws, [resolveTaskRef] does not pass the
    error on: it goes to the raw-id fallback, which fetches the ref as
    an id when it looks like one, and when that gives no task the
    result is the not-found error naming the accepted forms. *)
Theorem C5_search_error_degrades_to_not_found
  (api : TodoistApi) (ref e : string) :
  reachesSearch ref ->
  searchTasks api ref = inl e ->
  (forall e', fst (resolveTaskRef api ref) <> Thrown e')
  /\ snd (resolveTaskRef api ref)
     = (if looksLikeRawId ref then [searchCall ref; GetTask ref]
        else [searchCall ref])
  /\ (forall t, looksLikeRawId ref = true -> getTask api ref = inr t ->
        fst (resolveTaskRef api ref) = Returned t)
  /\ (looksLikeRawId ref = false \/ (exists e', getTask api ref = inl e') ->
      fst (resolveTaskRef api ref)
      = Exited ("Task " ++ dq ++ ref ++ dq
                ++ " not found. Use a name, URL, or id:xxx.")).
Proof.
  intros H Hs. rewrite (resolveTask_search_throws api ref e H Hs).
  unfold fallbackRun.
  destruct (looksLikeRawId ref); [destruct (getTask api ref) as [e0|t0]|];
    cbn [fst snd].
  - split; [discriminate|]. split; [reflexivity|]. split.
    + intros t _ Ht. discriminate.
    + intros _. reflexivity.
  - split; [discriminate|]. split; [reflexivity|]. split.
    + intros t _ Ht. inversion Ht; subst. reflexivity.
    + intros [Hf|[e' He']]; discriminate.
  - split; [discriminate|]. split; [reflexivity|]. split.
    + intros t Hf. discriminate.
    + intros _. reflexivity.
Qed.

Lemma C5_search_error_degrades_to_not_found_witness :
  reachesSearch "6g3VHV5"
  /\ searchTasks searchDown "6g3VHV5" = inl "ECONNRESET"
  /\ fst (resolveTaskRef searchDown "6g3VHV5")
     = Exited (notFoundMessage "Task" "6g3VHV5")
  /\ snd (resolveTaskRef searchDown "6g3VHV5")
     = [searchCall "6g3VHV5"; GetTask "6g3VHV5"].
Proof.
  assert (H : reachesSearch "6g3VHV5") by (repeat split; reflexivity).
  assert (Hs : searchTasks searchDown "6g3VHV5" = inl "ECONNRESET")
    by reflexivity.
  destruct (C5_search_error_degrades_to_not_found
              searchDown "6g3VHV5" "ECONNRESET" H Hs)
    as [_ [Htr [_ Hnf]]].
  split; [exact H|]. split; [exact Hs|]. split.
  - apply Hnf. right. exists "HTTP 404". reflexivity.
  - exact Htr.
Defined.

(** C6, as the code has it.  Once the search has committed to nothing,
    the ref is fetched as an id exactly when [looksLikeRawId] accepts
    it: the ref has no space character and is either one or more
    digits, or has at least one ASCII letter and at least one digit
    among characters of any kind.  A failure of that fetch is
    swallowed, and resolution ends with the not-found error. *)
Theorem C6_raw_id_fallback_iff_looksLikeRawId
  (api : TodoistApi) (ref : string) :
  reachesSearch ref ->
  searchFallsThrough api ref ->
  (In (GetTask ref) (snd (resolveTaskRef api ref))
   <-> looksLikeRawId ref = true)
  /\ (looksLikeRawId ref = true <->
      ~ In " "%char (list_ascii_of_string ref)
      /\ ((ref <> ""
           /\ Forall (fun c => isDigit c = true) (list_ascii_of_string ref))
          \/ (Exists (fun c => isAsciiLetter c = true)
                (list_ascii_of_string ref)
              /\ Exists (fun c => isDigit c = true)
                   (list_ascii_of_string ref))))
  /\ (forall e, getTask api ref = inl e ->
        fst (resolveTaskRef api ref) = Exited (notFoundMessage "Task" ref)).
Proof.
  intros H Hf. rewrite (resolveTask_falls_through api ref H Hf).
  split; [|split; [exact (looksLikeRawId_spec ref)|]].
  - unfold fallbackRun, searchCall.
    destruct (looksLikeRawId ref).
    + destruct (getTask api ref); cbn [snd];
        (split; [reflexivity | intros _; right; left; reflexivity]).
    + cbn [snd]. split; [intros [Hin|[]]; discriminate | discriminate].
  - intros e He. unfold fallbackRun. rewrite He.
    destruct (looksLikeRawId ref); reflexivity.
Qed.

Lemma C6_raw_id_fallback_iff_looksLikeRawId_witness :
  reachesSearch "6g3VHV5"
  /\ searchFallsThrough (service deployTasks []) "6g3VHV5"
  /\ In (GetTask "6g3VHV5")
       (snd (resolveTaskRef (service deployTasks []) "6g3VHV5"))
  /\ fst (resolveTaskRef (service deployTasks []) "6g3VHV5")
     = Exited (notFoundMessage "Task" "6g3VHV5").
Proof.
  assert (H : reachesSearch "6g3VHV5") by (repeat split; reflexivity).
  assert (Hf : searchFallsThrough (service deployTasks []) "6g3VHV5").
  { right. exists deployTasks. split; reflexivity. }
  destruct (C6_raw_id_fallback_iff_looksLikeRawId
              (service deployTasks []) "6g3VHV5" H Hf) as [Hiff [_ Hsw]].
  split; [exact H|]. split; [exact Hf|]. split.
  - apply Hiff. reflexivity.
  - apply (Hsw "HTTP 404"). reflexivity.
Defined.

(** C6 as stated fails: a ref with a hyphen, or with a tab, is not an
    alphanumeric string without whitespace, and is still fetched as an
    id. *)
Lemma C6_fallback_taken_for_non_alphanumeric :
  let tabbed := "a" ++ String (ascii_of_nat 9) "1" in
  specLooksLikeId "a-1" = false
  /\ looksLikeRawId "a-1" = true
  /\ resolveTaskRef (service [] []) "a-1"
     = (Exited (notFoundMessage "Task" "a-1"),
        [searchCall "a-1"; GetTask "a-1"])
  /\ specLooksLikeId tabbed = false
  /\ looksLikeRawId tabbed = true
  /\ In (GetTask tabbed) (snd (resolveTaskRef (service [] []) tabbed)).
Proof.
  cbv zeta. repeat split; try reflexivity.
  vm_compute. right. left. reflexivity.
Qed.

(** C10, as the code has it.  When two or more candidates equal the ref
    up to case, [resolveTaskRef] returns none of them: they are all
    substring matches, so it fails with the ambiguity error.  Its text
    is the heading that quotes the ref and then one line for each of
    the first five substring matches in search order, quoting the
    content and giving the id.  The lines of the exact matches are all
    in the text when there are at most five substring matches. *)
Theorem C10_duplicate_exact_matches_are_ambiguous
  (api : TodoistApi) (ref : string) (results : list Task.t) :
  let q := String "034"%char "" in
  let lf := String "010"%char "" in
  let line := fun c : string * string =>
    "  " ++ q ++ fst c ++ q ++ " (id:" ++ snd c ++ ")" in
  let listing := fun cands : list (string * string) =>
    "Ambiguous task " ++ q ++ ref ++ q ++ ". Matches:" ++ lf
      ++ String.concat lf (map line cands) in
  reachesSearch ref ->
  getTasksByFilter api ("search: " ++ ref) (Some 10) = inr results ->
  2 <= length (exactTasks ref results) ->
  (forall t, In t (exactTasks ref results) ->
     In t (partialTasks ref results))
  /\ (forall t, fst (resolveTaskRef api ref) <> Returned t)
  /\ exists cands,
       cands = firstn 5 (map (fun t => (Task.content t, Task.id t))
                           (partialTasks ref results))
       /\ resolveTaskRef api ref
          = (Exited (listing cands),
             [GetTasksByFilter ("search: " ++ ref) (Some 10)])
       /\ (forall c, In c cands -> includes (listing cands) (line c) = true)
       /\ (length (partialTasks ref results) <= 5 ->
           forall t, In t (exactTasks ref results) ->
             In (Task.content t, Task.id t) cands
             /\ includes (listing cands) (line (Task.content t, Task.id t))
                = true).
Proof.
  cbv beta zeta. intros H Hs He.
  pose proof (exact_le_partial_tasks ref results) as Hle.
  assert (Hamb := resolveTask_ambiguous api ref results H Hs
                    ltac:(lia) ltac:(lia)).
  assert (Hline : forall c, In c (taskCandidates ref results) ->
            includes
              ("Ambiguous task " ++ String "034" "" ++ ref ++ String "034" ""
               ++ ". Matches:" ++ String "010" ""
               ++ String.concat (String "010" "")
                    (map (fun c : string * string =>
                            "  " ++ String "034" "" ++ fst c
                            ++ String "034" "" ++ " (id:" ++ snd c ++ ")")
                       (taskCandidates ref results)))
              ("  " ++ String "034" "" ++ fst c ++ String "034" ""
               ++ " (id:" ++ snd c ++ ")") = true).
  { intros c Hc. do 6 apply includes_after.
    exact (listing_includes_line _ _ _ c Hc). }
  split; [exact (exactTasks_partial ref results)|]. split.
  - intros t. rewrite Hamb. discriminate.
  - exists (taskCandidates ref results). split; [reflexivity|].
    split; [rewrite Hamb; reflexivity|]. split; [exact Hline|].
    intros Hfew t Ht.
    assert (Hin : In (Task.content t, Task.id t) (taskCandidates ref results)).
    { unfold taskCandidates.
      rewrite firstn_all2 by (rewrite length_map; exact Hfew).
      exact (in_map taskCandidate _ t (exactTasks_partial ref results t Ht)). }
    split; [exact Hin | exact (Hline _ Hin)].
Qed.

Lemma C10_duplicate_exact_matches_are_ambiguous_witness :
  let q := String "034"%char "" in
  let lf := String "010"%char "" in
  reachesSearch "errands"
  /\ exactTasks "errands" (errandTasks ++ [task "14" "ERRANDS"])
     = [task "12" "Errands"; task "14" "ERRANDS"]
  /\ (forall t,
        fst (resolveTaskRef
               (service (errandTasks ++ [task "14" "ERRANDS"]) [])
               "errands") <> Returned t)
  /\ resolveTaskRef (service (errandTasks ++ [task "14" "ERRANDS"]) [])
       "errands"
     = (Exited
          ("Ambiguous task " ++ q ++ "errands" ++ q ++ ". Matches:" ++ lf
           ++ "  " ++ q ++ "Run errands downtown" ++ q ++ " (id:11)" ++ lf
           ++ "  " ++ q ++ "Errands" ++ q ++ " (id:12)" ++ lf
           ++ "  " ++ q ++ "errands for mum" ++ q ++ " (id:13)" ++ lf
           ++ "  " ++ q ++ "ERRANDS" ++ q ++ " (id:14)"),
        [GetTasksByFilter "search: errands" (Some 10)]).
Proof.
  cbv zeta.
  assert (H : reachesSearch "errands") by (repeat split; reflexivity).
  destruct (C10_duplicate_exact_matches_are_ambiguous
              (service (errandTasks ++ [task "14" "ERRANDS"]) [])
              "errands" (errandTasks ++ [task "14" "ERRANDS"]) H eq_refl)
    as [_ [Hnot [cands [Hc [Hrun _]]]]].
  - simpl. lia.
  - subst cands. split; [exact H|]. split; [reflexivity|].
    split; [exact Hnot | exact Hrun].
Defined.

(** C10 as stated fails: with more than five substring matches, the
    error can list none of the candidates that equal the ref. *)
Lemma C10_exact_duplicates_not_listed :
  let cands :=
    [("deploy api", "1"); ("deploy web", "2"); ("deploy db", "3");
     ("deploy docs", "4"); ("deploy cron", "5")] in
  exactTasks "deploy" crowdedTasks = [task "6" "Deploy"; task "7" "deploy"]
  /\ resolveTaskRef (service crowdedTasks []) "deploy"
     = (Exited (ambiguousMessage "task" "deploy" cands),
        [searchCall "deploy"])
  /\ ~ In (taskCandidate (task "6" "Deploy")) cands
  /\ ~ In (taskCandidate (task "7" "deploy")) cands
  /\ includes (ambiguousMessage "task" "deploy" cands) "(id:6)" = false
  /\ includes (ambiguousMessage "task" "deploy" cands) "(id:7)" = false
  /\ (let q := String "034"%char "" in
      let lf := String "010"%char "" in
      fst (resolveTaskRef (service crowdedTasks []) "deploy")
      = Exited
          ("Ambiguous task " ++ q ++ "deploy" ++ q ++ ". Matches:" ++ lf
           ++ "  " ++ q ++ "deploy api" ++ q ++ " (id:1)" ++ lf
           ++ "  " ++ q ++ "deploy web" ++ q ++ " (id:2)" ++ lf
           ++ "  " ++ q ++ "deploy db" ++ q ++ " (id:3)" ++ lf
           ++ "  " ++ q ++ "deploy docs" ++ q ++ " (id:4)" ++ lf
           ++ "  " ++ q ++ "deploy cron" ++ q ++ " (id:5)")).
Proof.
  cbv zeta. split; [reflexivity|]. split; [reflexivity|].
  split; [|split; [|split; [|split]; reflexivity]];
    (simpl; intros Hin;
     repeat (destruct Hin as [Hin|Hin]; [discriminate|]); exact Hin).
Qed.

End ResolverSpec.

(* ------------------------------------------------------------------ *)
(** ** The formatter's properties *)

Module FormatSpec.
Import Js Format.

(** C9. For a task whose due specification has a description, no date
    and no date-time, [formatTask] gives [due] null, [dueString] that
    description and [isRecurring] the flag of the source.  In general
    [due] is the date if there is one, else the date-time, else null;
    and [isRecurring] is false for a task without a due specification. *)
Theorem C9_formatTask_due_fields (t : Task.t) :
  (forall d, Task.due t = Some d ->
     Due.date d = None -> Due.datetime d = None ->
     due (formatTask t) = None
     /\ dueString (formatTask t) = Some (Due.string d)
     /\ isRecurring (formatTask t) = Due.isRecurring d)
  /\ due (formatTask t)
     = match Task.due t with
       | Some d =>
           match Due.date d with
           | Some date => Some date
           | None =>
               match Due.datetime d with
               | Some datetime => Some datetime
               | None => None
               end
           end
       | None => None
       end
  /\ (Task.due t = None ->
      isRecurring (formatTask t) = false
      /\ due (formatTask t) = None /\ dueString (formatTask t) = None).
Proof.
  split; [|split].
  - intros d Hd Hdate Hdt. unfold formatTask; cbn [due dueString isRecurring].
    rewrite Hd, Hdate, Hdt. repeat split; reflexivity.
  - unfold formatTask; cbn [due].
    destruct (Task.due t) as [d|]; [|reflexivity].
    destruct (Due.date d); [reflexivity|].
    destruct (Due.datetime d); reflexivity.
  - intros Hd. unfold formatTask; cbn [due dueString isRecurring].
    rewrite Hd. repeat split; reflexivity.
Qed.

Definition everyWeekday : Due.t :=
  Due.mk None None true "every weekday".

Definition standup : Task.t :=
  Task.mk "31" "Standup" "" 4 (Some everyWeekday) None ["work"] "p1"
    None None "https://app.todoist.com/app/task/31".

Lemma C9_formatTask_due_fields_witness :
  due (formatTask standup) = None
  /\ dueString (formatTask standup) = Some "every weekday"
  /\ isRecurring (formatTask standup) = true.
Proof.
  exact (proj1 (C9_formatTask_due_fields standup)
           everyWeekday eq_refl eq_refl eq_refl).
Defined.

End FormatSpec.

(* ------------------------------------------------------------------ *)
(** ** The review dashboard's overdue partition *)

Module ReviewSpec.
Import Js JsDate Review Format.

Definition dueOn (id date : string) : Task.t :=
  Task.mk id ("Task " ++ id) "" 1 (Some (Due.mk (Some date) None false date))
    None [] "p1" None None ("https://app.todoist.com/app/task/" ++ id).

(** 2026-02-20, ten in the morning, eight hours behind UTC. *)
Definition pacificMorning : Clock :=
  {| now := 1771610400000;
     utcOffsetMinutes := -480;
     utcOffsetAtMidnight := -480;
     parseOther := fun _ => None |}.

(** C7 at a clock behind UTC.  The local day is 2026-02-20; the task due
    on that day is put in the overdue partition, next to the one due
    the day before, because the due date is read as midnight UTC and
    compared with midnight local time. *)
Theorem C7_overdue_includes_task_due_today :
  let tasks :=
    [ dueOn "1" "2026-02-20"; dueOn "2" "2026-02-19";
      dueOn "3" "2026-02-21" ] in
  localDay pacificMorning = daysFromCivil 2026 2 20
  /\ newDate pacificMorning "2026-02-20" = Some 1771545600000%Z
  /\ startOfLocalDay pacificMorning = 1771574400000%Z
  /\ isOverdue pacificMorning (dueOn "1" "2026-02-20") = true
  /\ overdue pacificMorning tasks
     = [ dueOn "1" "2026-02-20"; dueOn "2" "2026-02-19" ]
  /\ count (r_overdue (cmdReview pacificMorning [] tasks [])) = 2.
Proof. cbv zeta. repeat split; vm_compute; reflexivity. Qed.

(** The same day at a clock ahead of UTC: the task due today is left out. *)
Example overdue_east_of_utc :
  let berlinMorning :=
    {| now := 1771578000000; utcOffsetMinutes := 60;
       utcOffsetAtMidnight := 60; parseOther := fun _ => None |} in
  localDay berlinMorning = daysFromCivil 2026 2 20
  /\ overdue berlinMorning
       [ dueOn "1" "2026-02-20"; dueOn "2" "2026-02-19" ]
     = [ dueOn "2" "2026-02-19" ].
Proof. cbv zeta. split; vm_compute; reflexivity. Qed.

End ReviewSpec.

(* ------------------------------------------------------------------ *)
(** ** The reminder-add command's option check *)

Module ReminderSpec.
Import Js Refs Reminder.

Definition usageMessage : string :=
  "Must specify --before <duration> or --at <datetime>".

(** C8, as the code has it.  [cmdReminderAdd] requires at least one of
    [--before] and [--at]: with neither it fails with the usage error
    and makes no remote call.  With both it goes on: given a duration
    that parses, a task with a due value and a Sync call that
    succeeds, it sends one command carrying both the minute offset and
    the due date, and reports success. *)
Theorem C8_reminder_add_option_check
  (h : Host) (ref : string) (before at_ : option string) :
  (truthyOpt before = false -> truthyOpt at_ = false ->
   cmdReminderAdd h ref before at_ = (Exited usageMessage, []))
  /\ (forall b a token task tr minutes resp,
        before = Some b -> at_ = Some a ->
        truthy b = true -> truthy a = true ->
        getToken h = (Returned token, []) ->
        resolveTaskRef (api h) ref = (Returned task, tr) ->
        parseDuration b = Some minutes ->
        Task.due task <> None ->
        fetchSync h
          (SyncReminderAdd token (fst (randomUUID h)) (snd (randomUUID h))
             (Task.id task) (Some minutes) (Some a)) = inr resp ->
        ok resp = true ->
        exists env,
          cmdReminderAdd h ref before at_
          = (Returned env,
             (tr ++ [SyncReminderAdd token (fst (randomUUID h))
                       (snd (randomUUID h)) (Task.id task)
                       (Some minutes) (Some a)])%list)
          /\ reminder (result env) = b ++ " before due").
Proof.
  split.
  - intros Hb Ha. unfold cmdReminderAdd. rewrite Hb, Ha. reflexivity.
  - intros b a token task tr minutes resp -> -> Hb Ha Htok Hres Hdur Hdue
      Hfetch Hok.
    unfold cmdReminderAdd, getApi. cbn [truthyOpt]. rewrite Hb, Ha.
    cbn [negb andb]. rewrite Htok. cbn [bind ret app].
    rewrite Hres. cbn [bind]. rewrite Hdur.
    destruct (Task.due task) as [d|]; [|contradiction].
    cbn [bind ret app]. rewrite Hfetch. cbn [await bind app].
    rewrite Hok. cbn [negb ret app].
    eexists. split; reflexivity.
Qed.

Definition callMum : Task.t :=
  Task.mk "42" "Call mum" "" 1
    (Some (Due.mk (Some "2026-02-20") None false "Feb 20")) None []
    "p1" None None "https://app.todoist.com/app/task/42".

Definition sampleHost : Host :=
  {| env_TODOIST_API_TOKEN := Some "t0ken";
     secretsLease := None;
     api := {| getTask := fun id => if id =? "42" then inr callMum
                                    else inl "HTTP 404";
               getTasksByFilter := fun _ _ => inr [];
               getTasks := fun _ => inr [callMum];
               getProject := fun _ => inl "HTTP 404";
               getProjects := inr [] |};
     randomUUID := ("uuid-1", "uuid-2");
     fetchSync := fun _ => inr {| ok := true; status := 200 |} |}.

Lemma C8_reminder_add_option_check_witness :
  cmdReminderAdd sampleHost "id:42" None None = (Exited usageMessage, [])
  /\ exists env,
       cmdReminderAdd sampleHost "id:42" (Some "30m")
         (Some "2026-02-20T10:00")
       = (Returned env,
          [GetTask "42";
           SyncReminderAdd "t0ken" "uuid-1" "uuid-2" "42" (Some 30%Z)
             (Some "2026-02-20T10:00")])
       /\ reminder (result env) = "30m before due".
Proof.
  split.
  - apply (proj1 (C8_reminder_add_option_check sampleHost "id:42" None None));
      reflexivity.
  - apply (proj2 (C8_reminder_add_option_check sampleHost "id:42"
                    (Some "30m") (Some "2026-02-20T10:00"))
             "30m" "2026-02-20T10:00" "t0ken" callMum [GetTask "42"]
             30%Z {| ok := true; status := 200 |});
      try reflexivity.
    simpl. discriminate.
Defined.

(** C8 as stated fails: an invocation with both options is accepted. *)
Lemma C8_both_options_accepted :
  truthyOpt (Some "30m") = true
  /\ truthyOpt (Some "2026-02-20T10:00") = true
  /\ cmdReminderAdd sampleHost "id:42" (Some "30m")
       (Some "2026-02-20T10:00")
     = (Returned
          {| command := "todoist-cli reminder-add";
             result := {| task_id := "42";
                          task_content := "Call mum";
                          reminder := "30m before due" |};
             next_actions :=
               [("todoist-cli reminders 42",
                 "List reminders for this task")] |},
        [GetTask "42";
         SyncReminderAdd "t0ken" "uuid-1" "uuid-2" "42" (Some 30%Z)
           (Some "2026-02-20T10:00")]).
Proof. repeat split; reflexivity. Qed.

End ReminderSpec.


(* ------------------------------------------------------------------ *)
(** ** More facts about the built-ins *)

Module JsMore.
Import Js JsFacts.

(** [trim] leaves something exactly when some character is not
    whitespace. *)
Lemma trim_truthy (s : string) :
  truthy (trim s) = negb (forallChar isWhiteSpace s).
Proof.
  induction s as [|c r IH]; [reflexivity|].
  cbn [forallChar]. destruct (isWhiteSpace c) eqn:E.
  - unfold trim. simpl trimStart. rewrite E. exact IH.
  - now rewrite trim_head.
Qed.

Lemma span_app (p : ascii -> bool) (a : string) (l : ascii) (r : string) :
  forallChar p a = true -> p l = false ->
  span p (a ++ String l r) = (a, String l r).
Proof.
  intros Ha Hl. induction a as [|c a IH]; simpl in *.
  - now rewrite Hl.
  - apply andb_true_iff in Ha. destruct Ha as [Hc Ha].
    now rewrite Hc, (IH Ha).
Qed.

Lemma span_all (p : ascii -> bool) (a : string) :
  forallChar p a = true -> span p a = (a, "").
Proof.
  induction a as [|c a IH]; simpl; [reflexivity|].
  intros Ha. apply andb_true_iff in Ha. destruct Ha as [Hc Ha].
  now rewrite Hc, (IH Ha).
Qed.

Lemma span_fst_forall (p : ascii -> bool) (s : string) :
  forallChar p (fst (span p s)) = true.
Proof.
  induction s as [|c s IH]; simpl; [reflexivity|].
  destruct (p c) eqn:E; [|reflexivity].
  destruct (span p s) as [a b]. simpl in *. now rewrite E.
Qed.

Lemma app_empty_r (s : string) : s ++ "" = s.
Proof. induction s as [|c s IH]; simpl; [reflexivity | now rewrite IH]. Qed.

Lemma app_assoc_s (a b c : string) : (a ++ b) ++ c = a ++ (b ++ c).
Proof. induction a as [|x a IH]; simpl; [reflexivity | now rewrite IH]. Qed.

Lemma forallChar_app (p : ascii -> bool) (a b : string) :
  forallChar p (a ++ b) = forallChar p a && forallChar p b.
Proof.
  induction a as [|c a IH]; simpl; [reflexivity|].
  now rewrite IH, andb_assoc.
Qed.

Lemma existsChar_app (p : ascii -> bool) (a b : string) :
  existsChar p (a ++ b) = existsChar p a || existsChar p b.
Proof.
  induction a as [|c a IH]; simpl; [reflexivity|].
  now rewrite IH, orb_assoc.
Qed.

(** The characters after the last occurrence of [c] do not contain [c]. *)
Lemma lastIndexOf_Some (c : ascii) (s : string) (i : nat) :
  lastIndexOf c s = Some i ->
  existsChar (Ascii.eqb c) (slice (S i) s) = false.
Proof.
  revert i. induction s as [|a s IH]; intros i; simpl; [discriminate|].
  destruct (lastIndexOf c s) as [j|] eqn:E.
  - intros H; inversion H; subst. now apply IH.
  - destruct (Ascii.eqb a c); [|discriminate].
    intros H; inversion H; subst. simpl.
    clear IH. induction s as [|b s IHs]; simpl in *; [reflexivity|].
    destruct (lastIndexOf c s); [discriminate|].
    destruct (Ascii.eqb b c) eqn:Eb; [discriminate|].
    rewrite Ascii.eqb_sym, Eb. now apply IHs.
Qed.

Lemma lastIndexOf_None (c : ascii) (s : string) :
  lastIndexOf c s = None <-> existsChar (Ascii.eqb c) s = false.
Proof.
  induction s as [|a s IH]; simpl; [tauto|].
  rewrite (Ascii.eqb_sym c a).
  destruct (lastIndexOf c s).
  - split; [discriminate|]. intros H. apply orb_false_iff in H.
    destruct H as [_ H]. apply IH in H. discriminate.
  - destruct (Ascii.eqb a c); simpl; [split; discriminate|].
    split; intros _; [now apply IH | reflexivity].
Qed.

Lemma lastIndexOf_app (c : ascii) (a b : string) :
  existsChar (Ascii.eqb c) b = false ->
  lastIndexOf c (a ++ String c b) = Some (String.length a).
Proof.
  intros Hb. induction a as [|x a IH]; simpl.
  - apply lastIndexOf_None in Hb. rewrite Hb.
    now rewrite Ascii.eqb_refl.
  - now rewrite IH.
Qed.

Lemma slice_app (a b : string) : slice (String.length a) (a ++ b) = b.
Proof. induction a as [|x a IH]; simpl; [now destruct b | exact IH]. Qed.

(** Slicing only drops characters. *)
Lemma forallChar_slice (p : ascii -> bool) (n : nat) (s : string) :
  forallChar p s = true -> forallChar p (slice n s) = true.
Proof.
  revert s. induction n as [|n IH]; intros [|c s]; simpl; auto.
  intros H. apply andb_true_iff in H. now apply IH.
Qed.

End JsMore.

(* ------------------------------------------------------------------ *)
(** ** Every way a resolution can end *)

Module ResolverCases.
Import Js JsFacts JsMore Refs RefsFacts.

Lemma resolveTask_url (api : TodoistApi) (ref : string) (p : ParsedUrl) :
  parseTodoistUrl ref = Some p -> type p = "task" ->
  resolveTaskRef api ref = await (GetTask (id p)) (getTask api (id p)).
Proof.
  intros Hu Hk. unfold resolveTaskRef.
  rewrite (url_not_blank _ _ Hu), Hu, Hk. reflexivity.
Qed.

Lemma resolveProject_url (api : TodoistApi) (ref : string) (p : ParsedUrl) :
  parseTodoistUrl ref = Some p -> type p = "project" ->
  resolveProjectRef api ref
  = await (GetProject (id p)) (getProject api (id p)).
Proof.
  intros Hu Hk. unfold resolveProjectRef.
  rewrite (url_not_blank _ _ Hu), Hu, Hk. reflexivity.
Qed.

Lemma resolveProject_idRef (api : TodoistApi) (ref : string) :
  isIdRef ref = true ->
  resolveProjectRef api ref
  = await (GetProject (extractId ref)) (getProject api (extractId ref)).
Proof.
  intros Hi. unfold resolveProjectRef.
  rewrite (idRef_not_blank _ Hi), (idRef_not_url _ Hi), Hi. reflexivity.
Qed.

Lemma singleton_sub {A} (l1 l2 : list A) (x : A) :
  (forall y, In y l1 -> In y l2) -> length l1 <= length l2 -> l2 = [x] ->
  l1 = [] \/ l1 = [x].
Proof.
  intros Hin Hlen ->. destruct l1 as [|a [|b l]]; simpl in Hlen.
  - now left.
  - right. destruct (Hin a (or_introl eq_refl)) as [<-|[]]. reflexivity.
  - lia.
Qed.

Lemma resolveTask_partial_unique (api : TodoistApi) (ref : string)
  (results : list Task.t) (t : Task.t) :
  reachesSearch ref -> searchTasks api ref = inr results ->
  partialTasks ref results = [t] ->
  resolveTaskRef api ref = (Returned t, [searchCall ref]).
Proof.
  intros H Hs Hp.
  destruct (singleton_sub _ _ t (exactTasks_partial ref results)
              (exact_le_partial_tasks ref results) Hp) as [He|He].
  - enter_search H. unfold searchTasks in Hs. rewrite Hs.
    unfold exactTasks in He. unfold partialTasks in Hp.
    cbv zeta. cbn [await bind]. rewrite He, Hp. reflexivity.
  - exact (resolveTask_exact api ref results t H Hs He).
Qed.

Lemma resolveProject_partial_unique (api : TodoistApi) (ref : string)
  (projects : list Project.t) (p : Project.t) :
  reachesSearch ref -> getProjects api = inr projects ->
  partialProjects ref projects = [p] ->
  resolveProjectRef api ref = (Returned p, [GetProjects]).
Proof.
  intros H Hs Hp.
  destruct (singleton_sub _ _ p (exactProjects_partial ref projects)
              (exact_le_partial_projects ref projects) Hp) as [He|He].
  - enter_search H. rewrite Hs.
    unfold exactProjects in He. unfold partialProjects in Hp.
    cbv zeta. cbn [await bind]. rewrite He, Hp. reflexivity.
  - exact (resolveProject_exact api ref projects p H Hs He).
Qed.

Lemma resolveProject_listing_throws (api : TodoistApi) (ref e : string) :
  reachesSearch ref -> getProjects api = inl e ->
  resolveProjectRef api ref = (Thrown e, [GetProjects]).
Proof. intros H Hs. enter_search H. rewrite Hs. reflexivity. Qed.

(** What [resolveProjectRef] does from the raw-id fallback on, after the
    listing. *)
Definition projectFallbackRun (api : TodoistApi) (ref : string)
  : run Project.t :=
  if looksLikeRawId ref then
    match getProject api ref with
    | inr p => (Returned p, [GetProjects; GetProject ref])
    | inl _ =>
        (Exited (notFoundMessage "Project" ref), [GetProjects; GetProject ref])
    end
  else (Exited (notFoundMessage "Project" ref), [GetProjects]).

Lemma resolveProject_no_match (api : TodoistApi) (ref : string)
  (projects : list Project.t) :
  reachesSearch ref -> getProjects api = inr projects ->
  partialProjects ref projects = [] ->
  resolveProjectRef api ref = projectFallbackRun api ref.
Proof.
  intros H Hs Hp.
  assert (He : exactProjects ref projects = []).
  { pose proof (exact_le_partial_projects ref projects) as Hle.
    rewrite Hp in Hle. simpl in Hle.
    destruct (exactProjects ref projects); [reflexivity | simpl in Hle; lia]. }
  enter_search H. rewrite Hs. unfold projectFallbackRun.
  unfold exactProjects in He. unfold partialProjects in Hp.
  cbv zeta. cbn [await bind]. rewrite He, Hp.
  destruct (looksLikeRawId ref); [|reflexivity].
  destruct (getProject api ref); reflexivity.
Qed.

(** The ways [resolveTaskRef] ends, each with the condition that selects
    it. *)
Inductive TaskResolution (api : TodoistApi) (ref : string)
  : run Task.t -> Prop :=
| TR_blank :
    truthy (trim ref) = false ->
    TaskResolution api ref (Exited "Task reference cannot be empty.", [])
| TR_wrong_kind p :
    parseTodoistUrl ref = Some p -> type p <> "task" ->
    TaskResolution api ref (Exited (wrongUrlMessage "task" (type p)), [])
| TR_url p :
    parseTodoistUrl ref = Some p -> type p = "task" ->
    TaskResolution api ref (await (GetTask (id p)) (getTask api (id p)))
| TR_id :
    isIdRef ref = true ->
    TaskResolution api ref
      (await (GetTask (extractId ref)) (getTask api (extractId ref)))
| TR_match results t :
    reachesSearch ref -> searchTasks api ref = inr results ->
    In t results ->
    exactTasks ref results = [t] \/ partialTasks ref results = [t] ->
    TaskResolution api ref (Returned t, [searchCall ref])
| TR_ambiguous results :
    reachesSearch ref -> searchTasks api ref = inr results ->
    1 < length (partialTasks ref results) ->
    TaskResolution api ref
      (Exited (ambiguousMessage "task" ref (taskCandidates ref results)),
       [searchCall ref])
| TR_fallback :
    reachesSearch ref -> searchFallsThrough api ref ->
    TaskResolution api ref (fallbackRun api ref).

Lemma resolveTask_cases (api : TodoistApi) (ref : string) :
  TaskResolution api ref (resolveTaskRef api ref).
Proof.
  destruct (truthy (trim ref)) eqn:Hb.
  2:{ unfold resolveTaskRef. rewrite Hb. now apply TR_blank. }
  destruct (parseTodoistUrl ref) as [p|] eqn:Hu.
  { destruct (String.eqb_spec (type p) "task") as [Hk|Hk].
    - rewrite (resolveTask_url api ref p Hu Hk). now apply TR_url.
    - rewrite (resolveTask_wrong_kind api ref p Hu Hk).
      now apply TR_wrong_kind. }
  destruct (isIdRef ref) eqn:Hi.
  { rewrite (resolveTask_idRef api ref Hi). now apply TR_id. }
  assert (H : reachesSearch ref) by (repeat split; assumption).
  destruct (searchTasks api ref) as [e|results] eqn:Hs.
  { rewrite (resolveTask_search_throws api ref e H Hs).
    apply TR_fallback; [assumption|]. left. now exists e. }
  destruct (partialTasks ref results) as [|p1 [|p2 lp]] eqn:Hp.
  - rewrite (resolveTask_no_match api ref results H Hs Hp).
    apply TR_fallback; [assumption|]. right. now exists results.
  - rewrite (resolveTask_partial_unique api ref results p1 H Hs Hp).
    apply TR_match with results; try assumption; [|now right].
    assert (Hin : In p1 (partialTasks ref results))
      by (rewrite Hp; now left).
    apply filter_In in Hin. exact (proj1 Hin).
  - destruct (exactTasks ref results) as [|e1 [|e2 le]] eqn:He.
    + rewrite (resolveTask_ambiguous api ref results H Hs);
        [ | rewrite He; simpl; lia | rewrite Hp; simpl; lia ].
      apply TR_ambiguous; [assumption..|]. rewrite Hp. simpl. lia.
    + rewrite (resolveTask_exact api ref results e1 H Hs He).
      apply TR_match with results; try assumption; [|now left].
      assert (Hin : In e1 (exactTasks ref results))
        by (rewrite He; now left).
      apply filter_In in Hin. exact (proj1 Hin).
    + rewrite (resolveTask_ambiguous api ref results H Hs);
        [ | rewrite He; simpl; lia | rewrite Hp; simpl; lia ].
      apply TR_ambiguous; [assumption..|]. rewrite Hp. simpl. lia.
Qed.

(** The ways [resolveProjectRef] ends. *)
Inductive ProjectResolution (api : TodoistApi) (ref : string)
  : run Project.t -> Prop :=
| PR_blank :
    truthy (trim ref) = false ->
    ProjectResolution api ref (Exited "Project reference cannot be empty.", [])
| PR_wrong_kind p :
    parseTodoistUrl ref = Some p -> type p <> "project" ->
    ProjectResolution api ref
      (Exited (wrongUrlMessage "project" (type p)), [])
| PR_url p :
    parseTodoistUrl ref = Some p -> type p = "project" ->
    ProjectResolution api ref
      (await (GetProject (id p)) (getProject api (id p)))
| PR_id :
    isIdRef ref = true ->
    ProjectResolution api ref
      (await (GetProject (extractId ref)) (getProject api (extractId ref)))
| PR_listing_throws e :
    reachesSearch ref -> getProjects api = inl e ->
    ProjectResolution api ref (Thrown e, [GetProjects])
| PR_match projects p :
    reachesSearch ref -> getProjects api = inr projects ->
    In p projects ->
    exactProjects ref projects = [p] \/ partialProjects ref projects = [p] ->
    ProjectResolution api ref (Returned p, [GetProjects])
| PR_ambiguous projects :
    reachesSearch ref -> getProjects api = inr projects ->
    1 < length (partialProjects ref projects) ->
    ProjectResolution api ref
      (Exited (ambiguousMessage "project" ref
                 (projectCandidates ref projects)),
       [GetProjects])
| PR_fallback projects :
    reachesSearch ref -> getProjects api = inr projects ->
    partialProjects ref projects = [] ->
    ProjectResolution api ref (projectFallbackRun api ref).

Lemma resolveProject_cases (api : TodoistApi) (ref : string) :
  ProjectResolution api ref (resolveProjectRef api ref).
Proof.
  destruct (truthy (trim ref)) eqn:Hb.
  2:{ unfold resolveProjectRef. rewrite Hb. now apply PR_blank. }
  destruct (parseTodoistUrl ref) as [p|] eqn:Hu.
  { destruct (String.eqb_spec (type p) "project") as [Hk|Hk].
    - rewrite (resolveProject_url api ref p Hu Hk). now apply PR_url.
    - rewrite (resolveProject_wrong_kind api ref p Hu Hk).
      now apply PR_wrong_kind. }
  destruct (isIdRef ref) eqn:Hi.
  { rewrite (resolveProject_idRef api ref Hi). now apply PR_id. }
  assert (H : reachesSearch ref) by (repeat split; assumption).
  destruct (getProjects api) as [e|projects] eqn:Hs.
  { rewrite (resolveProject_listing_throws api ref e H Hs).
    now apply PR_listing_throws. }
  destruct (partialProjects ref projects) as [|p1 [|p2 lp]] eqn:Hp.
  - rewrite (resolveProject_no_match api ref projects H Hs Hp).
    now apply PR_fallback with projects.
  - rewrite (resolveProject_partial_unique api ref projects p1 H Hs Hp).
    apply PR_match with projects; try assumption; [|now right].
    assert (Hin : In p1 (partialProjects ref projects))
      by (rewrite Hp; now left).
    apply filter_In in Hin. exact (proj1 Hin).
  - destruct (exactProjects ref projects) as [|e1 [|e2 le]] eqn:He.
    + rewrite (resolveProject_ambiguous api ref projects H Hs);
        [ | rewrite He; simpl; lia | rewrite Hp; simpl; lia ].
      apply PR_ambiguous; [assumption..|]. rewrite Hp. simpl. lia.
    + rewrite (resolveProject_exact api ref projects e1 H Hs He).
      apply PR_match with projects; try assumption; [|now left].
      assert (Hin : In e1 (exactProjects ref projects))
        by (rewrite He; now left).
      apply filter_In in Hin. exact (proj1 Hin).
    + rewrite (resolveProject_ambiguous api ref projects H Hs);
        [ | rewrite He; simpl; lia | rewrite Hp; simpl; lia ].
      apply PR_ambiguous; [assumption..|]. rewrite Hp. simpl. lia.
Qed.

End ResolverCases.

(* ------------------------------------------------------------------ *)
(** ** Further properties of the resolvers *)

Module ResolverMore.
Import Js JsFacts JsMore Refs RefsFacts ResolverCases Samples.

Lemma notFound_task_not_empty_message (ref : string) :
  notFoundMessage "Task" ref <> "Task reference cannot be empty.".
Proof. intros E. vm_compute in E. discriminate E. Qed.

Lemma notFound_project_not_empty_message (ref : string) :
  notFoundMessage "Project" ref <> "Project reference cannot be empty.".
Proof. intros E. vm_compute in E. discriminate E. Qed.

(** A ref made of whitespace only (the empty string included) is rejected
    by both resolvers with the empty-reference message and without any
    remote call; a ref with any other character never ends in that
    message. *)
Theorem blank_ref_is_rejected_without_calls
  (api : TodoistApi) (ref : string) :
  (forallChar isWhiteSpace ref = true ->
   resolveTaskRef api ref = (Exited "Task reference cannot be empty.", [])
   /\ resolveProjectRef api ref
      = (Exited "Project reference cannot be empty.", []))
  /\ (forallChar isWhiteSpace ref = false ->
      fst (resolveTaskRef api ref) <> Exited "Task reference cannot be empty."
      /\ fst (resolveProjectRef api ref)
         <> Exited "Project reference cannot be empty.").
Proof.
  pose proof (trim_truthy ref) as Ht. split; intros Hw; rewrite Hw in Ht.
  - unfold resolveTaskRef, resolveProjectRef. rewrite Ht. split; reflexivity.
  - cbn [negb] in Ht. split.
    + destruct (resolveTask_cases api ref)
        as [Hb|p Hu Hk|p Hu Hk|Hi|rs t H Hs Hin Hm|rs H Hs Hp|H Hf];
        cbn [fst].
      * congruence.
      * unfold wrongUrlMessage. simpl. discriminate.
      * unfold await. destruct (getTask api (id p)); discriminate.
      * unfold await. destruct (getTask api (extractId ref)); discriminate.
      * discriminate.
      * unfold ambiguousMessage. simpl. discriminate.
      * unfold fallbackRun.
        destruct (looksLikeRawId ref); [destruct (getTask api ref)|];
          cbn [fst]; try discriminate;
          intros E; inversion E as [E'];
          exact (notFound_task_not_empty_message ref E').
    + destruct (resolveProject_cases api ref)
        as [Hb|p Hu Hk|p Hu Hk|Hi|e H Hs|ps q H Hs Hin Hm|ps H Hs Hp
            |ps H Hs Hp];
        cbn [fst].
      * congruence.
      * unfold wrongUrlMessage. simpl. discriminate.
      * unfold await. destruct (getProject api (id p)); discriminate.
      * unfold await. destruct (getProject api (extractId ref)); discriminate.
      * discriminate.
      * discriminate.
      * unfold ambiguousMessage. simpl. discriminate.
      * unfold projectFallbackRun.
        destruct (looksLikeRawId ref); [destruct (getProject api ref)|];
          cbn [fst]; try discriminate;
          intros E; inversion E as [E'];
          exact (notFound_project_not_empty_message ref E').
Qed.

Lemma blank_ref_is_rejected_without_calls_witness :
  let blank := " " ++ String (ascii_of_nat 9) " " in
  resolveTaskRef (service errandTasks errandProjects) blank
  = (Exited "Task reference cannot be empty.", [])
  /\ fst (resolveTaskRef (service errandTasks errandProjects) " x ")
     <> Exited "Task reference cannot be empty.".
Proof.
  cbv zeta. split.
  - apply (proj1 (blank_ref_is_rejected_without_calls
                    (service errandTasks errandProjects) _)). reflexivity.
  - apply (proj2 (blank_ref_is_rejected_without_calls
                    (service errandTasks errandProjects) " x ")). reflexivity.
Defined.

(** A Todoist URL of the requested kind is resolved by one direct fetch of
    the id taken from the URL: no search, no fallback, and a failure of
    the fetch is thrown as it is. *)
Theorem url_ref_fetches_the_extracted_id
  (api : TodoistApi) (ref : string) (p : ParsedUrl) :
  parseTodoistUrl ref = Some p ->
  (type p = "task" ->
   snd (resolveTaskRef api ref) = [GetTask (id p)]
   /\ fst (resolveTaskRef api ref)
      = match getTask api (id p) with
        | inr t => Returned t
        | inl e => Thrown e
        end)
  /\ (type p = "project" ->
      snd (resolveProjectRef api ref) = [GetProject (id p)]
      /\ fst (resolveProjectRef api ref)
         = match getProject api (id p) with
           | inr q => Returned q
           | inl e => Thrown e
           end).
Proof.
  intros Hu. split; intros Hk.
  - rewrite (resolveTask_url api ref p Hu Hk). unfold await.
    destruct (getTask api (id p)); split; reflexivity.
  - rewrite (resolveProject_url api ref p Hu Hk). unfold await.
    destruct (getProject api (id p)); split; reflexivity.
Qed.

Lemma url_ref_fetches_the_extracted_id_witness :
  parseTodoistUrl "https://app.todoist.com/app/task/call-mum-42?x=1"
  = Some {| type := "task"; id := "42" |}
  /\ snd (resolveTaskRef (service errandTasks errandProjects)
            "https://app.todoist.com/app/task/call-mum-42?x=1")
     = [GetTask "42"]
  /\ fst (resolveTaskRef (service errandTasks errandProjects)
            "https://app.todoist.com/app/task/call-mum-42?x=1")
     = Thrown "HTTP 404".
Proof.
  assert (Hu : parseTodoistUrl
                 "https://app.todoist.com/app/task/call-mum-42?x=1"
               = Some {| type := "task"; id := "42" |}) by reflexivity.
  split; [exact Hu|].
  exact (proj1 (url_ref_fetches_the_extracted_id
                  (service errandTasks errandProjects) _ _ Hu) eq_refl).
Defined.

(** When exactly one candidate contains the ref (case ignored), it is
    returned by both resolvers, after the one search or listing call. *)
Theorem unique_substring_match_is_returned
  (api : TodoistApi) (ref : string)
  (results : list Task.t) (t : Task.t)
  (projects : list Project.t) (p : Project.t) :
  reachesSearch ref ->
  (searchTasks api ref = inr results ->
   partialTasks ref results = [t] ->
   resolveTaskRef api ref = (Returned t, [searchCall ref]))
  /\ (getProjects api = inr projects ->
      partialProjects ref projects = [p] ->
      resolveProjectRef api ref = (Returned p, [GetProjects])).
Proof.
  intros H. split; intros Hs Hp.
  - exact (resolveTask_partial_unique api ref results t H Hs Hp).
  - exact (resolveProject_partial_unique api ref projects p H Hs Hp).
Qed.

Lemma unique_substring_match_is_returned_witness :
  reachesSearch "docs"
  /\ exactTasks "docs" deployTasks = []
  /\ resolveTaskRef (service deployTasks deployProjects) "docs"
     = (Returned (task "3" "Write docs"), [searchCall "docs"])
  /\ resolveProjectRef (service deployTasks deployProjects) "infra"
     = (Returned (project "8" "Redeploy infra"), [GetProjects]).
Proof.
  assert (H : reachesSearch "docs") by (repeat split; reflexivity).
  assert (H' : reachesSearch "infra") by (repeat split; reflexivity).
  split; [exact H|]. split; [reflexivity|]. split.
  - apply (proj1 (unique_substring_match_is_returned
                    (service deployTasks deployProjects) "docs"
                    deployTasks (task "3" "Write docs")
                    deployProjects (project "8" "Redeploy infra") H));
      reflexivity.
  - apply (proj2 (unique_substring_match_is_returned
                    (service deployTasks deployProjects) "infra"
                    deployTasks (task "3" "Write docs")
                    deployProjects (project "8" "Redeploy infra") H'));
      reflexivity.
Defined.

(** Unlike the task search, the project listing is not guarded: when it
    fails, [resolveProjectRef] throws the listing's error, and the ref is
    not tried as a raw id. *)
Theorem project_listing_error_propagates
  (api : TodoistApi) (ref e : string) :
  reachesSearch ref -> getProjects api = inl e ->
  resolveProjectRef api ref = (Thrown e, [GetProjects])
  /\ ~ In (GetProject ref) (snd (resolveProjectRef api ref)).
Proof.
  intros H Hs. rewrite (resolveProject_listing_throws api ref e H Hs).
  split; [reflexivity|]. cbn [snd]. intros [E|[]]. discriminate.
Qed.

Lemma project_listing_error_propagates_witness :
  reachesSearch "6g3VHV5"
  /\ looksLikeRawId "6g3VHV5" = true
  /\ resolveProjectRef searchDown "6g3VHV5"
     = (Thrown "ECONNRESET", [GetProjects]).
Proof.
  assert (H : reachesSearch "6g3VHV5") by (repeat split; reflexivity).
  split; [exact H|]. split; [reflexivity|].
  exact (proj1 (project_listing_error_propagates
                  searchDown "6g3VHV5" "ECONNRESET" H eq_refl)).
Defined.

(** Both resolvers make at most two remote calls, and only reads of the
    kind they resolve: a task search or task fetch for tasks, the
    project listing or a project fetch for projects. *)
Theorem resolvers_make_at_most_two_read_calls
  (api : TodoistApi) (ref : string) :
  length (snd (resolveTaskRef api ref)) <= 2
  /\ (forall c, In c (snd (resolveTaskRef api ref)) ->
        c = searchCall ref \/ exists id, c = GetTask id)
  /\ length (snd (resolveProjectRef api ref)) <= 2
  /\ (forall c, In c (snd (resolveProjectRef api ref)) ->
        c = GetProjects \/ exists id, c = GetProject id).
Proof.
  split; [|split; [|split]].
  - destruct (resolveTask_cases api ref)
      as [Hb|p Hu Hk|p Hu Hk|Hi|rs t H Hs Hin Hm|rs H Hs Hp|H Hf];
      try (cbn [snd length]; lia).
    + unfold await. destruct (getTask api (id p)); cbn; lia.
    + unfold await. destruct (getTask api (extractId ref)); cbn; lia.
    + unfold fallbackRun.
      destruct (looksLikeRawId ref); [destruct (getTask api ref)|]; cbn; lia.
  - destruct (resolveTask_cases api ref)
      as [Hb|p Hu Hk|p Hu Hk|Hi|rs t H Hs Hin Hm|rs H Hs Hp|H Hf];
      cbn [snd]; intros c Hc.
    + destruct Hc.
    + destruct Hc.
    + unfold await in Hc. destruct (getTask api (id p));
        destruct Hc as [<-|[]]; right; eauto.
    + unfold await in Hc. destruct (getTask api (extractId ref));
        destruct Hc as [<-|[]]; right; eauto.
    + destruct Hc as [<-|[]]. now left.
    + destruct Hc as [<-|[]]. now left.
    + unfold fallbackRun in Hc.
      destruct (looksLikeRawId ref); [destruct (getTask api ref)|];
        cbn [snd] in Hc;
        repeat (destruct Hc as [<-|Hc]; [eauto|]); destruct Hc.
  - destruct (resolveProject_cases api ref)
      as [Hb|p Hu Hk|p Hu Hk|Hi|e H Hs|ps q H Hs Hin Hm|ps H Hs Hp
          |ps H Hs Hp];
      try (cbn [snd length]; lia).
    + unfold await. destruct (getProject api (id p)); cbn; lia.
    + unfold await. destruct (getProject api (extractId ref)); cbn; lia.
    + unfold projectFallbackRun.
      destruct (looksLikeRawId ref); [destruct (getProject api ref)|];
        cbn; lia.
  - destruct (resolveProject_cases api ref)
      as [Hb|p Hu Hk|p Hu Hk|Hi|e H Hs|ps q H Hs Hin Hm|ps H Hs Hp
          |ps H Hs Hp];
      cbn [snd]; intros c Hc.
    + destruct Hc.
    + destruct Hc.
    + unfold await in Hc. destruct (getProject api (id p));
        destruct Hc as [<-|[]]; right; eauto.
    + unfold await in Hc. destruct (getProject api (extractId ref));
        destruct Hc as [<-|[]]; right; eauto.
    + destruct Hc as [<-|[]]. now left.
    + destruct Hc as [<-|[]]. now left.
    + destruct Hc as [<-|[]]. now left.
    + unfold projectFallbackRun in Hc.
      destruct (looksLikeRawId ref); [destruct (getProject api ref)|];
        cbn [snd] in Hc;
        repeat (destruct Hc as [<-|Hc]; [eauto|]); destruct Hc.
Qed.

Lemma resolvers_make_at_most_two_read_calls_witness :
  length (snd (resolveTaskRef (service [] []) "6g3VHV5")) <= 2
  /\ (GetTask "6g3VHV5" = searchCall "6g3VHV5"
      \/ exists id, GetTask "6g3VHV5" = GetTask id).
Proof.
  destruct (resolvers_make_at_most_two_read_calls (service [] []) "6g3VHV5")
    as [Hlen [Honly _]].
  split; [exact Hlen|]. apply Honly. right. now left.
Defined.

(** A task that [resolveTaskRef] returns was delivered by the service:
    either by a fetch the run made, or in the search response, and then
    its content contains the ref, case ignored. *)
Theorem resolved_task_comes_from_the_service
  (api : TodoistApi) (ref : string) (t : Task.t) :
  fst (resolveTaskRef api ref) = Returned t ->
  (exists id, getTask api id = inr t
              /\ In (GetTask id) (snd (resolveTaskRef api ref)))
  \/ (exists results,
        searchTasks api ref = inr results /\ In t results
        /\ includes (toLowerCase (Task.content t)) (toLowerCase ref) = true).
Proof.
  destruct (resolveTask_cases api ref)
    as [Hb|p Hu Hk|p Hu Hk|Hi|rs t' H Hs Hin Hm|rs H Hs Hp|H Hf];
    cbn [fst snd]; try discriminate.
  - unfold await. destruct (getTask api (id p)) as [e|t0] eqn:E;
      cbn [fst snd]; [discriminate|].
    intros Ht; inversion Ht; subst. left. exists (id p). split; [exact E|].
    now left.
  - unfold await. destruct (getTask api (extractId ref)) as [e|t0] eqn:E;
      cbn [fst snd]; [discriminate|].
    intros Ht; inversion Ht; subst. left. exists (extractId ref).
    split; [exact E | now left].
  - intros Ht; inversion Ht; subst. right. exists rs.
    split; [assumption|]. split; [assumption|].
    assert (Hpart : In t (partialTasks ref rs)).
    { destruct Hm as [Hm|Hm].
      - apply exactTasks_partial. rewrite Hm. now left.
      - rewrite Hm. now left. }
    apply filter_In in Hpart. exact (proj2 Hpart).
  - unfold fallbackRun.
    destruct (looksLikeRawId ref); [|discriminate].
    destruct (getTask api ref) as [e|t0] eqn:E; cbn [fst snd];
      [discriminate|].
    intros Ht; inversion Ht; subst. left. exists ref.
    split; [exact E | right; now left].
Qed.

Lemma resolved_task_comes_from_the_service_witness :
  exists results,
    searchTasks (service errandTasks errandProjects) "errands" = inr results
    /\ In (task "12" "Errands") results
    /\ includes (toLowerCase (Task.content (task "12" "Errands")))
         (toLowerCase "errands") = true.
Proof.
  destruct (resolved_task_comes_from_the_service
              (service errandTasks errandProjects) "errands"
              (task "12" "Errands") eq_refl) as [[id [Hid _]]|H].
  - discriminate Hid.
  - exact H.
Defined.

(** Resolution of a task by name never throws: whatever the service
    answers to the search and to the fallback fetch, the run returns a
    task or exits with a message.  A thrown error can only come from
    the direct fetch of a URL or [id:] ref. *)
Theorem task_resolution_by_name_never_throws
  (api : TodoistApi) (ref e : string) :
  fst (resolveTaskRef api ref) = Thrown e ->
  (isIdRef ref = true /\ getTask api (extractId ref) = inl e)
  \/ (exists p, parseTodoistUrl ref = Some p /\ type p = "task"
                /\ getTask api (id p) = inl e).
Proof.
  destruct (resolveTask_cases api ref)
    as [Hb|p Hu Hk|p Hu Hk|Hi|rs t' H Hs Hin Hm|rs H Hs Hp|H Hf];
    cbn [fst]; try discriminate.
  - unfold await. destruct (getTask api (id p)) as [e0|t0] eqn:E;
      cbn [fst]; [|discriminate].
    intros Ht; inversion Ht; subst. right. exists p. auto.
  - unfold await. destruct (getTask api (extractId ref)) as [e0|t0] eqn:E;
      cbn [fst]; [|discriminate].
    intros Ht; inversion Ht; subst. left. auto.
  - unfold fallbackRun.
    destruct (looksLikeRawId ref); [destruct (getTask api ref)|];
      discriminate.
Qed.

Lemma task_resolution_by_name_never_throws_witness :
  isIdRef "id:123" = true /\ getTask (service [] []) "123" = inl "HTTP 404".
Proof.
  destruct (task_resolution_by_name_never_throws
              (service [] []) "id:123" "HTTP 404" eq_refl)
    as [H|[p [Hu _]]].
  - exact H.
  - discriminate Hu.
Defined.

(** When the listing has no project whose name contains the ref,
    [resolveProjectRef] fetches the ref as an id exactly when
    [looksLikeRawId] accepts it; a failure of that fetch is swallowed
    and the run ends with the not-found message. *)
Theorem project_raw_id_fallback
  (api : TodoistApi) (ref : string) (projects : list Project.t) :
  reachesSearch ref -> getProjects api = inr projects ->
  partialProjects ref projects = [] ->
  (In (GetProject ref) (snd (resolveProjectRef api ref))
   <-> looksLikeRawId ref = true)
  /\ (forall p, looksLikeRawId ref = true -> getProject api ref = inr p ->
        fst (resolveProjectRef api ref) = Returned p)
  /\ (looksLikeRawId ref = false \/ (exists e, getProject api ref = inl e) ->
      fst (resolveProjectRef api ref)
      = Exited (notFoundMessage "Project" ref)).
Proof.
  intros H Hs Hp. rewrite (resolveProject_no_match api ref projects H Hs Hp).
  unfold projectFallbackRun.
  destruct (looksLikeRawId ref); [destruct (getProject api ref) as [e|q]|];
    cbn [fst snd].
  - split; [split; [reflexivity | intros _; right; now left]|].
    split; [discriminate | reflexivity].
  - split; [split; [reflexivity | intros _; right; now left]|].
    split; [intros p _ Hq; now inversion Hq|].
    intros [Hf|[e He]]; discriminate.
  - split; [split; [intros [E|[]]; discriminate | discriminate]|].
    split; [discriminate | reflexivity].
Qed.

Lemma project_raw_id_fallback_witness :
  reachesSearch "2203306141"
  /\ In (GetProject "2203306141")
       (snd (resolveProjectRef (service [] deployProjects) "2203306141"))
  /\ fst (resolveProjectRef (service [] deployProjects) "2203306141")
     = Exited (notFoundMessage "Project" "2203306141").
Proof.
  assert (H : reachesSearch "2203306141") by (repeat split; reflexivity).
  destruct (project_raw_id_fallback (service [] deployProjects)
              "2203306141" deployProjects H eq_refl eq_refl)
    as [Hiff [_ Hnf]].
  split; [exact H|]. split.
  - apply Hiff. reflexivity.
  - apply Hnf. right. exists "HTTP 404". reflexivity.
Defined.

End ResolverMore.

(* ------------------------------------------------------------------ *)
(** ** Properties of the URL parser *)

Module UrlFacts.
Import Js JsFacts JsMore Refs RefsFacts.

Lemma slice_past (a : string) (c : ascii) (b : string) :
  slice (S (String.length a)) (a ++ String c b) = b.
Proof. induction a as [|x a IH]; simpl; [now destruct b | exact IH]. Qed.

Lemma matchKind_build (kind rest : string) :
  In kind urlKinds ->
  matchKind urlKinds ((kind ++ "/") ++ rest) = Some (kind, rest).
Proof.
  intros [<-|[<-|[<-|[<-|[]]]]]; reflexivity.
Qed.

(** The text after the slug: nothing, or a query or fragment. *)
Definition urlTail (tail : string) : Prop :=
  tail = "" \/ exists c r, tail = String c r /\ notQueryOrHash c = false.

Lemma span_body (body tail : string) :
  forallChar notQueryOrHash body = true -> urlTail tail ->
  span notQueryOrHash (body ++ tail) = (body, tail).
Proof.
  intros Hb [->|[c [r [-> Hc]]]].
  - rewrite app_empty_r. now apply span_all.
  - now apply span_app.
Qed.

Lemma matchAfterScheme_build (kind body tail : string) :
  In kind urlKinds -> body <> "" ->
  forallChar notQueryOrHash body = true -> urlTail tail ->
  matchAfterScheme
    ("://app.todoist.com/app/" ++ (kind ++ "/") ++ (body ++ tail))
  = Some (kind, body).
Proof.
  intros Hk Hne Hb Ht. unfold matchAfterScheme.
  rewrite stripPrefix_of_app.
  fold urlKinds. rewrite (matchKind_build kind _ Hk).
  rewrite (span_body body tail Hb Ht). cbn [fst].
  destruct body; [congruence | reflexivity].
Qed.

Lemma matchTodoistUrl_build (scheme kind body tail : string) :
  scheme = "http" \/ scheme = "https" ->
  In kind urlKinds -> body <> "" ->
  forallChar notQueryOrHash body = true -> urlTail tail ->
  matchTodoistUrl
    (scheme ++ "://app.todoist.com/app/" ++ (kind ++ "/") ++ (body ++ tail))
  = Some (kind, body).
Proof.
  intros Hs Hk Hne Hb Ht.
  pose proof (matchAfterScheme_build kind body tail Hk Hne Hb Ht) as Hm.
  unfold matchTodoistUrl. destruct Hs as [->| ->].
  - rewrite stripPrefix_of_app.
    change (stripPrefix "s"
              ("://app.todoist.com/app/" ++ (kind ++ "/") ++ body ++ tail))
      with (@None string).
    exact Hm.
  - change ("https" ++ "://app.todoist.com/app/" ++ (kind ++ "/")
              ++ body ++ tail)
      with ("http" ++ "s" ++ "://app.todoist.com/app/" ++ (kind ++ "/")
              ++ body ++ tail).
    rewrite !stripPrefix_of_app. rewrite Hm. reflexivity.
Qed.

Lemma matchAfterScheme_slug (s k slug : string) :
  matchAfterScheme s = Some (k, slug) ->
  forallChar notQueryOrHash slug = true /\ slug <> "".
Proof.
  unfold matchAfterScheme.
  destruct (stripPrefix _ s) as [r|]; [|discriminate].
  destruct (matchKind _ r) as [[k' r']|]; [|discriminate].
  pose proof (span_fst_forall notQueryOrHash r') as Hf.
  destruct (fst (span notQueryOrHash r')) as [|c body]; [discriminate|].
  intros H; inversion H; subst. split; [exact Hf | discriminate].
Qed.

Lemma matchTodoistUrl_slug (url k slug : string) :
  matchTodoistUrl url = Some (k, slug) ->
  forallChar notQueryOrHash slug = true /\ slug <> "".
Proof.
  unfold matchTodoistUrl.
  destruct (stripPrefix "http" url) as [r|]; [|discriminate].
  destruct (stripPrefix "s" r) as [r'|].
  - destruct (matchAfterScheme r') as [m|] eqn:E'.
    + intros H; inversion H; subst. exact (matchAfterScheme_slug _ _ _ E').
    + apply matchAfterScheme_slug.
  - apply matchAfterScheme_slug.
Qed.

(** Building a Todoist URL and parsing it gives back the kind and the id,
    for both schemes and all four kinds, with or without a slug before
    the id and whatever query or fragment follows.  The id is what
    follows the last hyphen, so a slug ending in a hyphen gives the
    empty id. *)
Theorem parseTodoistUrl_round_trip
  (scheme kind slug i tail : string) :
  scheme = "http" \/ scheme = "https" ->
  In kind ["task"; "project"; "label"; "filter"] ->
  forallChar notQueryOrHash slug = true ->
  forallChar notQueryOrHash i = true ->
  existsChar (Ascii.eqb "-"%char) i = false ->
  urlTail tail ->
  parseTodoistUrl
    (scheme ++ "://app.todoist.com/app/" ++ kind ++ "/" ++ slug ++ "-"
       ++ i ++ tail)
  = Some {| type := kind; id := i |}
  /\ (i <> "" ->
      parseTodoistUrl
        (scheme ++ "://app.todoist.com/app/" ++ kind ++ "/" ++ i ++ tail)
      = Some {| type := kind; id := i |}).
Proof.
  intros Hs Hk Hslug Hi Hhy Ht. split.
  - assert (Hbody : forallChar notQueryOrHash (slug ++ String "-" i) = true).
    { rewrite forallChar_app. cbn [forallChar]. rewrite Hslug, Hi.
      reflexivity. }
    assert (Hne : slug ++ String "-" i <> "") by (destruct slug; discriminate).
    pose proof (matchTodoistUrl_build scheme kind _ tail Hs Hk Hne Hbody Ht)
      as Hm.
    assert (Heq : scheme ++ "://app.todoist.com/app/" ++ kind ++ "/" ++ slug
                    ++ "-" ++ i ++ tail
                  = scheme ++ "://app.todoist.com/app/" ++ (kind ++ "/")
                      ++ (slug ++ String "-" i) ++ tail).
    { rewrite !app_assoc_s. reflexivity. }
    unfold parseTodoistUrl. rewrite Heq, Hm.
    rewrite (lastIndexOf_app "-" slug i Hhy), Nat.add_1_r, slice_past.
    reflexivity.
  - intros Hne.
    pose proof (matchTodoistUrl_build scheme kind i tail Hs Hk Hne Hi Ht)
      as Hm.
    assert (Heq : scheme ++ "://app.todoist.com/app/" ++ kind ++ "/" ++ i
                    ++ tail
                  = scheme ++ "://app.todoist.com/app/" ++ (kind ++ "/")
                      ++ i ++ tail).
    { rewrite !app_assoc_s. reflexivity. }
    unfold parseTodoistUrl. rewrite Heq, Hm.
    rewrite (proj2 (lastIndexOf_None "-" i) Hhy). reflexivity.
Qed.

Lemma parseTodoistUrl_round_trip_witness :
  parseTodoistUrl
    "http://app.todoist.com/app/project/home-reno-2203306141#top"
  = Some {| type := "project"; id := "2203306141" |}
  /\ parseTodoistUrl "https://app.todoist.com/app/task/buy-milk-"
     = Some {| type := "task"; id := "" |}.
Proof.
  split.
  - apply (proj1 (parseTodoistUrl_round_trip
                    "http" "project" "home-reno" "2203306141" "#top"
                    (or_introl eq_refl)
                    (or_intror (or_introl eq_refl))
                    eq_refl eq_refl eq_refl
                    (or_intror (ex_intro _ "#"%char
                                  (ex_intro _ "top" (conj eq_refl eq_refl)))))).
  - apply (proj1 (parseTodoistUrl_round_trip
                    "https" "task" "buy-milk" "" ""
                    (or_intror eq_refl) (or_introl eq_refl)
                    eq_refl eq_refl eq_refl (or_introl eq_refl))).
Defined.

(** The id that [parseTodoistUrl] extracts never contains a hyphen, a
    question mark or a hash sign. *)
Theorem parsed_id_has_no_separator (ref : string) (p : ParsedUrl) :
  parseTodoistUrl ref = Some p ->
  existsChar (Ascii.eqb "-"%char) (id p) = false
  /\ existsChar (Ascii.eqb "?"%char) (id p) = false
  /\ existsChar (Ascii.eqb "#"%char) (id p) = false.
Proof.
  unfold parseTodoistUrl.
  destruct (matchTodoistUrl ref) as [[k slug]|] eqn:E; [|discriminate].
  destruct (matchTodoistUrl_slug _ _ _ E) as [Hf _].
  intros H; inversion H; subst; cbn [id]. clear H.
  assert (Hq : forall s, forallChar notQueryOrHash s = true ->
                 existsChar (Ascii.eqb "?"%char) s = false
                 /\ existsChar (Ascii.eqb "#"%char) s = false).
  { induction s as [|c s IH]; cbn [existsChar forallChar]; [auto|].
    intros Hs. apply andb_true_iff in Hs. destruct Hs as [Hc Hs].
    destruct (IH Hs) as [-> ->]. unfold notQueryOrHash in Hc.
    apply negb_true_iff, orb_false_iff in Hc. destruct Hc as [H1 H2].
    rewrite (Ascii.eqb_sym "?" c), (Ascii.eqb_sym "#" c), H1, H2. auto. }
  destruct (lastIndexOf "-" slug) as [n|] eqn:El.
  - rewrite Nat.add_1_r. split; [exact (lastIndexOf_Some _ _ _ El)|].
    apply Hq, forallChar_slice, Hf.
  - split; [exact (proj1 (lastIndexOf_None _ _) El) | exact (Hq _ Hf)].
Qed.

Lemma parsed_id_has_no_separator_witness :
  existsChar (Ascii.eqb "-"%char) "6g3VHV5" = false
  /\ existsChar (Ascii.eqb "?"%char) "6g3VHV5" = false
  /\ existsChar (Ascii.eqb "#"%char) "6g3VHV5" = false.
Proof.
  exact (parsed_id_has_no_separator
           "https://app.todoist.com/app/task/buy-milk-6g3VHV5?x=a-b"
           {| type := "task"; id := "6g3VHV5" |} eq_refl).
Defined.

End UrlFacts.

(* ------------------------------------------------------------------ *)
(** ** Command-line arguments *)

Module Cli.
Import Js.

(** The flags object, as its own properties in the order of the
    assignments that made them, latest first: a lookup finds the latest
    assignment to the key. *)
Definition Flags : Type := list (string * string).

(** [flags[key] = value] for a string [value].  The object starts as
    [{}], so the key [__proto__] is the accessor of [Object.prototype]:
    its setter ignores a value that is not an object and no property is
    made.  Every other key becomes an own property. *)
Definition setFlag (key value : string) (flags : Flags) : Flags :=
  if key =? "__proto__" then flags else (key, value) :: flags.

(** The own property [key] of [flags], [None] when there is none.  This
    is [flags[key]] for every key that [Object.prototype] does not
    define, which the keys the program reads all are ([before], [at],
    [project], ...). *)
Fixpoint getFlag (key : string) (flags : Flags) : option string :=
  match flags with
  | [] => None
  | (k, v) :: rest => if k =? key then Some v else getFlag key rest
  end.

(** The loop of [parseFlags], from the current position on. *)
Fixpoint parseFlagsFrom (args : list string) (flags : Flags) : Flags :=
  match args with
  | [] => flags
  | a :: rest =>
      if startsWith a "--" then
        let key := slice 2 a in
        match rest with
        | next :: rest' =>
            if truthy next && negb (startsWith next "--")
            then parseFlagsFrom rest' (setFlag key next flags)
            else parseFlagsFrom rest (setFlag key "true" flags)
        | [] => parseFlagsFrom rest (setFlag key "true" flags)
        end
      else parseFlagsFrom rest flags
  end.

Definition parseFlags (args : list string) : Flags := parseFlagsFrom args [].

Fixpoint getNonFlagArgs (args : list string) : list string :=
  match args with
  | [] => []
  | a :: rest =>
      if startsWith a "--" then
        match rest with
        | next :: rest' =>
            if truthy next && negb (startsWith next "--")
            then getNonFlagArgs rest'
            else getNonFlagArgs rest
        | [] => getNonFlagArgs rest
        end
      else a :: getNonFlagArgs rest
  end.

End Cli.

(* ------------------------------------------------------------------ *)
(** ** Comments *)

Module FileAttachment.
Record t := mk {
  fileName : option string;
  fileUrl : option string;
  fileType : option string
}.
End FileAttachment.

Module Comment.
Record t := mk {
  id : string;
  content : string;
  postedAt : string;
  taskId : option string;
  projectId : option string;
  fileAttachment : option FileAttachment.t
}.
End Comment.

Module FormatComment.
Import Js Format.

(** In [taskId], [projectId] and [attachmentName], [None] is [undefined]. *)
Record FormattedComment := {
  id : string;
  content : string;
  postedAt : string;
  taskId : option string;
  projectId : option string;
  hasAttachment : bool;
  attachmentName : option string
}.

Definition formatComment (c : Comment.t) : FormattedComment :=
  {| id := Comment.id c;
     content := Comment.content c;
     postedAt := Comment.postedAt c;
     taskId := coalesce (Comment.taskId c) None;
     projectId := coalesce (Comment.projectId c) None;
     hasAttachment :=
       match Comment.fileAttachment c with
       | Some _ => true
       | None => false
       end;
     attachmentName :=
       coalesce
         (match Comment.fileAttachment c with
          | Some f => FileAttachment.fileName f
          | None => None
          end)
         None |}.

End FormatComment.

(* ------------------------------------------------------------------ *)
(** ** Properties of the argument parser *)

Module CliFacts.
Import Js JsFacts Cli RefsFacts.

(** Induction over an argument list read one or two tokens at a time. *)
Lemma args_ind2 (P : list string -> Prop) :
  P [] -> (forall a, P [a]) ->
  (forall a b rest, P rest -> P (b :: rest) -> P (a :: b :: rest)) ->
  forall args, P args.
Proof.
  intros H0 H1 H2 args.
  assert (H : P args /\ forall a, P (a :: args)).
  { induction args as [|b rest [IH1 IH2]]; split; auto. }
  exact (proj1 H).
Qed.

(** Whether [next] is taken as the value of the flag before it. *)
Definition isValue (next : string) : bool :=
  truthy next && negb (startsWith next "--").

Lemma dashed_is_not_value (t : string) :
  startsWith t "--" = true -> isValue t = false.
Proof. intros H. unfold isValue. rewrite H. apply andb_false_r. Qed.

Lemma dashed_shape (a : string) :
  startsWith a "--" = true -> a = "--" ++ slice 2 a.
Proof.
  unfold startsWith. intros H.
  destruct (stripPrefix "--" a) as [r|] eqn:E; [|discriminate].
  apply stripPrefix_app in E. subst a. reflexivity.
Qed.

Lemma getFlag_set_mono (k key v : string) (flags : Flags) :
  getFlag k flags <> None -> getFlag k (setFlag key v flags) <> None.
Proof.
  intros H. unfold setFlag. destruct (key =? "__proto__"); [exact H|].
  cbn [getFlag]. destruct (key =? k); [discriminate | exact H].
Qed.

Lemma getFlag_set_same (k v : string) (flags : Flags) :
  k <> "__proto__" -> getFlag k (setFlag k v flags) = Some v.
Proof.
  intros Hk. unfold setFlag. apply String.eqb_neq in Hk. rewrite Hk.
  cbn [getFlag]. now rewrite String.eqb_refl.
Qed.

(** An assignment leaves the flags as they were or adds its pair. *)
Lemma In_setFlag (k v key value : string) (flags : Flags) :
  In (k, v) (setFlag key value flags) ->
  (k, v) = (key, value) \/ In (k, v) flags.
Proof.
  unfold setFlag. destruct (key =? "__proto__"); [now right|].
  intros [E|H]; [left; now symmetry | now right].
Qed.

Lemma getFlag_proto_set (key v : string) (flags : Flags) :
  getFlag "__proto__" flags = None ->
  getFlag "__proto__" (setFlag key v flags) = None.
Proof.
  intros H. unfold setFlag. destruct (key =? "__proto__") eqn:E; [exact H|].
  cbn [getFlag]. now rewrite E.
Qed.

Lemma parseFlagsFrom_cons2 (a b : string) (rest : list string)
  (flags : Flags) :
  parseFlagsFrom (a :: b :: rest) flags
  = if startsWith a "--" then
      if isValue b then parseFlagsFrom rest (setFlag (slice 2 a) b flags)
      else parseFlagsFrom (b :: rest) (setFlag (slice 2 a) "true" flags)
    else parseFlagsFrom (b :: rest) flags.
Proof. reflexivity. Qed.

Lemma parseFlagsFrom_one (a : string) (flags : Flags) :
  parseFlagsFrom [a] flags
  = if startsWith a "--" then setFlag (slice 2 a) "true" flags else flags.
Proof. reflexivity. Qed.

Lemma getNonFlagArgs_cons2 (a b : string) (rest : list string) :
  getNonFlagArgs (a :: b :: rest)
  = if startsWith a "--" then
      if isValue b then getNonFlagArgs rest else getNonFlagArgs (b :: rest)
    else a :: getNonFlagArgs (b :: rest).
Proof. reflexivity. Qed.

Lemma getNonFlagArgs_one (a : string) :
  getNonFlagArgs [a] = if startsWith a "--" then [] else [a].
Proof. reflexivity. Qed.

(** A key, once set, stays set. *)
Lemma parseFlagsFrom_mono (k : string) (args : list string) :
  forall flags, getFlag k flags <> None ->
    getFlag k (parseFlagsFrom args flags) <> None.
Proof.
  induction args as [|a|a b rest IH1 IH2] using args_ind2;
    intros flags H.
  - exact H.
  - rewrite parseFlagsFrom_one.
    destruct (startsWith a "--"); [now apply getFlag_set_mono | exact H].
  - rewrite parseFlagsFrom_cons2.
    destruct (startsWith a "--"); [|now apply IH2].
    destruct (isValue b).
    + apply IH1. now apply getFlag_set_mono.
    + apply IH2. now apply getFlag_set_mono.
Qed.

Lemma parseFlagsFrom_sets (a : string) (args : list string) :
  forall flags, In a args -> startsWith a "--" = true ->
    slice 2 a <> "__proto__" ->
    getFlag (slice 2 a) (parseFlagsFrom args flags) <> None.
Proof.
  intros flags Hin Ha Hk. revert flags Hin.
  assert (Hset : forall v flags,
            getFlag (slice 2 a) (setFlag (slice 2 a) v flags) <> None).
  { intros v flags. rewrite (getFlag_set_same _ v flags Hk). discriminate. }
  induction args as [|x|x b rest IH1 IH2] using args_ind2;
    intros flags Hin.
  - destruct Hin.
  - destruct Hin as [->|[]]. rewrite parseFlagsFrom_one, Ha. apply Hset.
  - rewrite parseFlagsFrom_cons2. destruct (startsWith x "--") eqn:Hx.
    + destruct (isValue b) eqn:Hb.
      * destruct Hin as [->|[->|Hin]].
        -- apply parseFlagsFrom_mono. apply Hset.
        -- rewrite (dashed_is_not_value _ Ha) in Hb. discriminate.
        -- now apply IH1.
      * destruct Hin as [->|Hin].
        -- apply parseFlagsFrom_mono. apply Hset.
        -- now apply IH2.
    + destruct Hin as [->|Hin]; [congruence | now apply IH2].
Qed.

(** No command line makes a property named [__proto__]. *)
Lemma parseFlagsFrom_proto (args : list string) :
  forall flags, getFlag "__proto__" flags = None ->
    getFlag "__proto__" (parseFlagsFrom args flags) = None.
Proof.
  induction args as [|a|a b rest IH1 IH2] using args_ind2; intros flags H.
  - exact H.
  - rewrite parseFlagsFrom_one.
    destruct (startsWith a "--"); [now apply getFlag_proto_set | exact H].
  - rewrite parseFlagsFrom_cons2.
    destruct (startsWith a "--"); [|now apply IH2].
    destruct (isValue b).
    + apply IH1. now apply getFlag_proto_set.
    + apply IH2. now apply getFlag_proto_set.
Qed.

(** Split an equation between pairs without reducing its sides. *)
Ltac split_pair E :=
  let Hk := fresh "Hk" in
  let Hv := fresh "Hv" in
  pose proof (f_equal fst E) as Hk; pose proof (f_equal snd E) as Hv;
  cbn [fst snd] in Hk, Hv; subst.

Lemma parseFlagsFrom_origin (args : list string) :
  forall flags k v, In (k, v) (parseFlagsFrom args flags) ->
    In (k, v) flags
    \/ (In ("--" ++ k) args
        /\ (v = "true"
            \/ (In v args /\ v <> "" /\ startsWith v "--" = false))).
Proof.
  assert (Hval : forall b, isValue b = true ->
                   b <> "" /\ startsWith b "--" = false).
  { intros b Hb. unfold isValue in Hb. apply andb_true_iff in Hb.
    destruct Hb as [H1 H2]. split.
    - intros ->. discriminate H1.
    - now apply negb_true_iff in H2. }
  induction args as [|a|a b rest IH1 IH2] using args_ind2;
    intros flags k v Hin.
  - now left.
  - rewrite parseFlagsFrom_one in Hin.
    destruct (startsWith a "--") eqn:Ha; [|now left].
    destruct (In_setFlag _ _ _ _ _ Hin) as [E|Hf]; [|now left].
    split_pair E. right. rewrite <- (dashed_shape a Ha).
    split; [now left | now left].
  - rewrite parseFlagsFrom_cons2 in Hin.
    destruct (startsWith a "--") eqn:Ha.
    + destruct (isValue b) eqn:Hb.
      * destruct (IH1 _ _ _ Hin) as [Hs|[Hk Hv]].
        -- destruct (In_setFlag _ _ _ _ _ Hs) as [E|Hf]; [|now left].
           split_pair E. right. rewrite <- (dashed_shape a Ha).
           split; [now left|]. right.
           destruct (Hval _ Hb) as [H1 H2].
           split; [right; now left | now split].
        -- right. split; [right; now right|].
           destruct Hv as [->|[Hv1 Hv2]]; [now left|].
           right. split; [right; now right | exact Hv2].
      * destruct (IH2 _ _ _ Hin) as [Hs|[Hk Hv]].
        -- destruct (In_setFlag _ _ _ _ _ Hs) as [E|Hf]; [|now left].
           split_pair E. right. rewrite <- (dashed_shape a Ha).
           split; [now left | now left].
        -- right. split; [now right|].
           destruct Hv as [->|[Hv1 Hv2]]; [now left|].
           right. split; [now right | exact Hv2].
    + destruct (IH2 _ _ _ Hin) as [Hf|[Hk Hv]]; [now left|].
      right. split; [now right|].
      destruct Hv as [->|[Hv1 Hv2]]; [now left|].
      right. split; [now right | exact Hv2].
Qed.

(** A token that starts with two dashes is never skipped: what comes
    before it is read on its own. *)
Lemma parseFlagsFrom_app (t : string) (tl args : list string) :
  startsWith t "--" = true ->
  forall flags,
    parseFlagsFrom (args ++ t :: tl) flags
    = parseFlagsFrom (t :: tl) (parseFlagsFrom args flags).
Proof.
  intros Ht.
  induction args as [|a|a b rest IH1 IH2] using args_ind2; intros flags.
  - reflexivity.
  - change ([a] ++ t :: tl)%list with (a :: t :: tl).
    rewrite parseFlagsFrom_cons2, parseFlagsFrom_one.
    rewrite (dashed_is_not_value t Ht).
    destruct (startsWith a "--"); reflexivity.
  - change ((a :: b :: rest) ++ t :: tl)%list
      with (a :: b :: (rest ++ t :: tl))%list.
    rewrite !parseFlagsFrom_cons2. destruct (startsWith a "--").
    + destruct (isValue b).
      * apply IH1.
      * exact (IH2 _).
    + exact (IH2 _).
Qed.

Lemma getNonFlagArgs_app (t : string) (tl args : list string) :
  startsWith t "--" = true ->
  getNonFlagArgs (args ++ t :: tl)
  = (getNonFlagArgs args ++ getNonFlagArgs (t :: tl))%list.
Proof.
  intros Ht.
  induction args as [|a|a b rest IH1 IH2] using args_ind2.
  - reflexivity.
  - change ([a] ++ t :: tl)%list with (a :: t :: tl).
    rewrite getNonFlagArgs_cons2, getNonFlagArgs_one.
    rewrite (dashed_is_not_value t Ht).
    destruct (startsWith a "--"); reflexivity.
  - change ((a :: b :: rest) ++ t :: tl)%list
      with (a :: b :: (rest ++ t :: tl))%list.
    rewrite !getNonFlagArgs_cons2. destruct (startsWith a "--").
    + destruct (isValue b).
      * apply IH1.
      * exact IH2.
    + cbn [app]. f_equal. exact IH2.
Qed.

End CliFacts.

(* ------------------------------------------------------------------ *)
(** ** What the argument parser guarantees *)

Module CliSpec.
Import Js JsFacts Cli CliFacts RefsFacts.

(** The positional arguments are arguments of the command line, in their
    original order, and none of them starts with two dashes. *)
Theorem positionals_keep_order_and_have_no_dashes (args : list string) :
  sublist (getNonFlagArgs args) args
  /\ Forall (fun a => startsWith a "--" = false) (getNonFlagArgs args).
Proof.
  induction args as [|a|a b rest [S1 F1] [S2 F2]] using args_ind2.
  - split; constructor.
  - rewrite getNonFlagArgs_one. destruct (startsWith a "--") eqn:Ha.
    + split; [apply sublist_nil_l | constructor].
    + split; [apply sublist_refl | now repeat constructor].
  - rewrite getNonFlagArgs_cons2. destruct (startsWith a "--") eqn:Ha.
    + destruct (isValue b).
      * split; [now do 2 apply sublist_skip | exact F1].
      * split; [now apply sublist_skip | exact F2].
    + split; [now apply sublist_keep | now constructor].
Qed.

(** Every token that starts with two dashes becomes a flag, its name
    without the dashes being a key of the result, unless that name is
    [__proto__]: no command line makes a flag of that name. *)
Theorem every_dashed_token_sets_a_flag (args : list string) (a : string) :
  In a args -> startsWith a "--" = true ->
  (slice 2 a <> "__proto__" ->
   exists v, getFlag (slice 2 a) (parseFlags args) = Some v)
  /\ getFlag "__proto__" (parseFlags args) = None.
Proof.
  intros Hin Ha. split.
  - intros Hk.
    pose proof (parseFlagsFrom_sets a args [] Hin Ha Hk) as H.
    unfold parseFlags. destruct (getFlag _ _) as [v|]; [now exists v|].
    now elim H.
  - unfold parseFlags. now apply parseFlagsFrom_proto.
Qed.

Lemma every_dashed_token_sets_a_flag_witness :
  (exists v,
     getFlag "favorite"
       (parseFlags ["Home"; "--color"; "red"; "--favorite"; "--__proto__"; "x"])
     = Some v)
  /\ getFlag "__proto__"
       (parseFlags ["Home"; "--color"; "red"; "--favorite"; "--__proto__"; "x"])
     = None.
Proof.
  destruct (every_dashed_token_sets_a_flag
              ["Home"; "--color"; "red"; "--favorite"; "--__proto__"; "x"]
              "--favorite") as [Hset Hproto].
  - simpl. tauto.
  - reflexivity.
  - split; [apply Hset; discriminate | exact Hproto].
Defined.

Lemma getFlag_In (k v : string) (flags : Flags) :
  getFlag k flags = Some v -> In (k, v) flags.
Proof.
  induction flags as [|[k' v'] rest IH]; cbn [getFlag]; [discriminate|].
  destruct (String.eqb_spec k' k) as [->|Hne].
  - intros H; inversion H; subst. now left.
  - intros H. right. now apply IH.
Qed.

(** The value of a flag is either the text [true], for a flag given
    without a value, or a token of the command line that is not empty
    and does not start with two dashes; and the flag itself was on the
    command line. *)
Theorem flag_values_come_from_the_command_line
  (args : list string) (k v : string) :
  getFlag k (parseFlags args) = Some v ->
  In ("--" ++ k) args
  /\ (v = "true" \/ (In v args /\ v <> "" /\ startsWith v "--" = false)).
Proof.
  intros H. apply getFlag_In in H.
  destruct (parseFlagsFrom_origin args [] k v H) as [[]|Hr]. exact Hr.
Qed.

Lemma flag_values_come_from_the_command_line_witness :
  In "--due" ["Buy milk"; "--due"; "tomorrow"; "--priority"; "2"]
  /\ ("tomorrow" = "true"
      \/ (In "tomorrow" ["Buy milk"; "--due"; "tomorrow"; "--priority"; "2"]
          /\ "tomorrow" <> "" /\ startsWith "tomorrow" "--" = false)).
Proof.
  exact (flag_values_come_from_the_command_line
           ["Buy milk"; "--due"; "tomorrow"; "--priority"; "2"]
           "due" "tomorrow" eq_refl).
Defined.

Lemma parseFlagsFrom_no_dashes (args : list string) (flags : Flags) :
  Forall (fun a => startsWith a "--" = false) args ->
  parseFlagsFrom args flags = flags /\ getNonFlagArgs args = args.
Proof.
  induction args as [|a rest IH]; intros H; [split; reflexivity|].
  inversion H as [|x l Ha Hrest]; subst.
  destruct (IH Hrest) as [IHf IHp].
  destruct rest as [|b rest'].
  - rewrite parseFlagsFrom_one, getNonFlagArgs_one, Ha. split; reflexivity.
  - rewrite parseFlagsFrom_cons2, getNonFlagArgs_cons2, Ha, IHf, IHp.
    split; reflexivity.
Qed.

(** A command line without a token that starts with two dashes is all
    positional arguments and sets no flag. *)
Theorem no_dashes_means_no_flags (args : list string) :
  Forall (fun a => startsWith a "--" = false) args ->
  getNonFlagArgs args = args
  /\ forall k, getFlag k (parseFlags args) = None.
Proof.
  intros H. unfold parseFlags.
  destruct (parseFlagsFrom_no_dashes args [] H) as [-> ->].
  split; reflexivity.
Qed.

Lemma no_dashes_means_no_flags_witness :
  getNonFlagArgs ["Buy milk"; "-x"; "tomorrow"] = ["Buy milk"; "-x"; "tomorrow"]
  /\ forall k, getFlag k (parseFlags ["Buy milk"; "-x"; "tomorrow"]) = None.
Proof.
  apply (no_dashes_means_no_flags ["Buy milk"; "-x"; "tomorrow"]).
  repeat constructor.
Defined.

(** A flag and its value at the end of the command line: the flag,
    when its name is not [__proto__], gets that value, whatever was
    given for it earlier; and for every name the positional arguments
    are those of the rest of the line. *)
Theorem last_flag_value_wins (args : list string) (k v : string) :
  v <> "" -> startsWith v "--" = false ->
  (k <> "__proto__" ->
   getFlag k (parseFlags (args ++ ["--" ++ k; v])) = Some v)
  /\ getNonFlagArgs (args ++ ["--" ++ k; v]) = getNonFlagArgs args.
Proof.
  intros Hne Hv.
  assert (Hk : startsWith ("--" ++ k) "--" = true) by reflexivity.
  assert (Hval : isValue v = true).
  { unfold isValue. rewrite Hv. destruct v; [congruence | reflexivity]. }
  split.
  - intros Hp. unfold parseFlags. rewrite (parseFlagsFrom_app _ _ args Hk).
    rewrite parseFlagsFrom_cons2, Hk, Hval. cbn [parseFlagsFrom].
    change (slice 2 ("--" ++ k)) with k. now apply getFlag_set_same.
  - rewrite (getNonFlagArgs_app _ _ args Hk).
    rewrite getNonFlagArgs_cons2, Hk, Hval. cbn [getNonFlagArgs].
    apply app_nil_r.
Qed.

Lemma last_flag_value_wins_witness :
  getFlag "due" (parseFlags (["Buy milk"; "--due"; "today"]
                               ++ ["--due"; "tomorrow"])%list)
  = Some "tomorrow"
  /\ getNonFlagArgs (["Buy milk"; "--due"; "today"]
                       ++ ["--due"; "tomorrow"])%list
     = getNonFlagArgs ["Buy milk"; "--due"; "today"].
Proof.
  destruct (last_flag_value_wins ["Buy milk"; "--due"; "today"]
              "due" "tomorrow") as [Hflag Hpos].
  - discriminate.
  - reflexivity.
  - split; [apply Hflag; discriminate | exact Hpos].
Defined.

(** A flag at the very end of the command line, or followed by the empty
    string, gets the value [true] when its name is not [__proto__]; for
    every name the empty string is then read as a positional argument. *)
Theorem flag_without_value_is_true (args : list string) (k : string) :
  (k <> "__proto__" ->
   getFlag k (parseFlags (args ++ ["--" ++ k])) = Some "true"
   /\ getFlag k (parseFlags (args ++ ["--" ++ k; ""])) = Some "true")
  /\ getNonFlagArgs (args ++ ["--" ++ k]) = getNonFlagArgs args
  /\ getNonFlagArgs (args ++ ["--" ++ k; ""])
     = (getNonFlagArgs args ++ [""])%list.
Proof.
  assert (Hk : startsWith ("--" ++ k) "--" = true) by reflexivity.
  unfold parseFlags.
  rewrite !(parseFlagsFrom_app _ _ args Hk), !(getNonFlagArgs_app _ _ args Hk).
  rewrite parseFlagsFrom_one, getNonFlagArgs_one, parseFlagsFrom_cons2,
    getNonFlagArgs_cons2, Hk.
  change (isValue "") with false. cbn [parseFlagsFrom getNonFlagArgs].
  change (startsWith "" "--") with false.
  change (slice 2 ("--" ++ k)) with k.
  rewrite app_nil_r. split; [|split; reflexivity].
  intros Hp. rewrite !(getFlag_set_same k "true" _ Hp). split; reflexivity.
Qed.

Lemma flag_without_value_is_true_witness :
  getFlag "favorite" (parseFlags (["Home"] ++ ["--favorite"])%list)
  = Some "true"
  /\ getFlag "favorite" (parseFlags (["Home"] ++ ["--favorite"; ""])%list)
     = Some "true".
Proof.
  apply (proj1 (flag_without_value_is_true ["Home"] "favorite")).
  discriminate.
Defined.

End CliSpec.

(* ------------------------------------------------------------------ *)
(** ** Properties of the duration parser *)

Module DurationFacts.
Import Js JsFacts JsMore Reminder.

Lemma digit_not_whitespace (c : ascii) :
  isDigit c = true -> isWhiteSpace c = false.
Proof.
  destruct c as [[] [] [] [] [] [] [] []]; intros H;
    try reflexivity; discriminate H.
Qed.

Lemma digit_code (c : ascii) :
  isDigit c = true -> (0 <= Z.of_nat (code c) - 48 <= 9)%Z.
Proof.
  unfold isDigit. cbv zeta. intros H. apply andb_true_iff in H.
  destruct H as [H1 H2]. apply Nat.leb_le in H1, H2. lia.
Qed.

Lemma parseDigits_nonneg (d : string) :
  forall acc, forallChar isDigit d = true -> (0 <= acc)%Z ->
    (0 <= parseDigits acc d)%Z.
Proof.
  induction d as [|c d IH]; intros acc Hd Hacc; cbn [parseDigits];
    [exact Hacc|].
  cbn [forallChar] in Hd. apply andb_true_iff in Hd. destruct Hd as [Hc Hd].
  apply IH; [exact Hd|]. pose proof (digit_code c Hc). lia.
Qed.

(** One step of the scan for [(\d+)\s*x]. *)
Lemma matchDigitsThen_step (x c : ascii) (r : string) :
  matchDigitsThen x (String c r)
  = match
      (if isDigit c then
         match snd (span isWhiteSpace (snd (span isDigit (String c r)))) with
         | String l _ =>
             if Ascii.eqb (lowerChar l) x
             then Some (fst (span isDigit (String c r))) else None
         | EmptyString => None
         end
       else None)
    with
    | Some digits => Some digits
    | None => matchDigitsThen x r
    end.
Proof.
  cbn [matchDigitsThen]. destruct (isDigit c); [|reflexivity].
  destruct (span isDigit (String c r)) as [digits rest]. reflexivity.
Qed.

Lemma matchDigitsThen_hit (x l : ascii) (d r : string) :
  d <> "" -> forallChar isDigit d = true ->
  isDigit l = false -> isWhiteSpace l = false -> lowerChar l = x ->
  matchDigitsThen x (d ++ String l r) = Some d.
Proof.
  intros Hne Hd Hl Hw Hx. destruct d as [|c d]; [congruence|].
  change (String c d ++ String l r) with (String c (d ++ String l r)).
  rewrite matchDigitsThen_step.
  change (String c (d ++ String l r)) with (String c d ++ String l r).
  rewrite (span_app isDigit _ l r Hd Hl). cbn [fst snd].
  cbn [forallChar] in Hd. apply andb_true_iff in Hd. destruct Hd as [Hc _].
  rewrite Hc. cbn [span]. rewrite Hw. cbn [snd].
  rewrite Hx, Ascii.eqb_refl. reflexivity.
Qed.

Lemma matchDigitsThen_skip (x l : ascii) (d r : string) :
  forallChar isDigit d = true ->
  isDigit l = false -> isWhiteSpace l = false -> lowerChar l <> x ->
  matchDigitsThen x (d ++ String l r) = matchDigitsThen x r.
Proof.
  intros Hd Hl Hw Hx. induction d as [|c d IH].
  - cbn [append]. rewrite matchDigitsThen_step, Hl. reflexivity.
  - change (String c d ++ String l r) with (String c (d ++ String l r)).
    rewrite matchDigitsThen_step.
    change (String c (d ++ String l r)) with (String c d ++ String l r).
    rewrite (span_app isDigit _ l r Hd Hl). cbn [fst snd].
    cbn [forallChar] in Hd. apply andb_true_iff in Hd.
    destruct Hd as [Hc Hd]. rewrite Hc. cbn [span]. rewrite Hw. cbn [snd].
    apply Ascii.eqb_neq in Hx. rewrite Hx. exact (IH Hd).
Qed.

Lemma matchDigitsThen_all_digits (x : ascii) (d : string) :
  forallChar isDigit d = true -> matchDigitsThen x d = None.
Proof.
  induction d as [|c d IH]; intros Hd; [reflexivity|].
  rewrite matchDigitsThen_step, (span_all isDigit _ Hd). cbn [fst snd span].
  cbn [forallChar] in Hd. apply andb_true_iff in Hd.
  destruct Hd as [Hc Hd]. rewrite Hc. exact (IH Hd).
Qed.

Lemma matchDigitsThen_no_digit (x : ascii) (s : string) :
  existsChar isDigit s = false -> matchDigitsThen x s = None.
Proof.
  induction s as [|c s IH]; intros Hs; [reflexivity|].
  cbn [existsChar] in Hs. apply orb_false_iff in Hs. destruct Hs as [Hc Hs].
  rewrite matchDigitsThen_step, Hc. exact (IH Hs).
Qed.

(** The captured group is a non-empty run of digits. *)
Lemma matchDigitsThen_digits (x : ascii) (s d : string) :
  matchDigitsThen x s = Some d -> forallChar isDigit d = true /\ d <> "".
Proof.
  induction s as [|c s IH]; [discriminate|].
  rewrite matchDigitsThen_step.
  destruct (isDigit c) eqn:Hc; [|exact IH].
  destruct (snd (span isWhiteSpace (snd (span isDigit (String c s)))))
    as [|l r]; [exact IH|].
  destruct (Ascii.eqb (lowerChar l) x); [|exact IH].
  intros H.
  assert (Hd : fst (span isDigit (String c s)) = d) by congruence.
  rewrite <- Hd. split; [apply span_fst_forall|].
  cbn [span]. rewrite Hc. destruct (span isDigit s). discriminate.
Qed.

Lemma existsChar_trimStart (p : ascii -> bool) (s : string) :
  existsChar p (trimStart s) = true -> existsChar p s = true.
Proof.
  induction s as [|c s IH]; cbn [trimStart existsChar]; [auto|].
  destruct (isWhiteSpace c); [|auto].
  intros H. rewrite (IH H). apply orb_true_r.
Qed.

Lemma existsChar_trimEnd (p : ascii -> bool) (s : string) :
  existsChar p (trimEnd s) = true -> existsChar p s = true.
Proof.
  induction s as [|c s IH]; cbn [trimEnd existsChar]; [auto|].
  destruct ((trimEnd s =? "") && isWhiteSpace c); cbn [existsChar];
    [discriminate|].
  intros H. apply orb_true_iff in H. destruct H as [H|H].
  - now rewrite H.
  - rewrite (IH H). apply orb_true_r.
Qed.

Lemma existsChar_trim (p : ascii -> bool) (s : string) :
  existsChar p s = false -> existsChar p (trim s) = false.
Proof.
  intros H. destruct (existsChar p (trim s)) eqn:E; [|reflexivity].
  unfold trim in E. apply existsChar_trimEnd, existsChar_trimStart in E.
  congruence.
Qed.

Lemma trim_digits (d : string) : forallChar isDigit d = true -> trim d = d.
Proof.
  intros Hd. unfold trim.
  assert (Hs : trimStart d = d).
  { destruct d as [|c d]; [reflexivity|]. cbn [trimStart forallChar] in *.
    apply andb_true_iff in Hd. destruct Hd as [Hc _].
    now rewrite (digit_not_whitespace c Hc). }
  rewrite Hs. clear Hs.
  induction d as [|c d IH]; [reflexivity|].
  cbn [trimEnd forallChar] in *. apply andb_true_iff in Hd.
  destruct Hd as [Hc Hd].
  rewrite (digit_not_whitespace c Hc), andb_false_r, (IH Hd). reflexivity.
Qed.

(** [parseDuration] after the two pattern matches. *)
Lemma parseDuration_eq (s : string) :
  parseDuration s
  = match matchDigitsThen "h" s, matchDigitsThen "m" s with
    | Some h, Some m => Some (0 + parseDigits 0 h * 60 + parseDigits 0 m * 1)%Z
    | Some h, None => Some (0 + parseDigits 0 h * 60)%Z
    | None, Some m => Some (0 + parseDigits 0 m * 1)%Z
    | None, None =>
        if existsChar isDigit (trim s) && forallChar isDigit (trim s)
        then Some (parseDigits 0 (trim s)) else None
    end.
Proof.
  unfold parseDuration.
  destruct (matchDigitsThen "h" s), (matchDigitsThen "m" s); cbn [negb andb];
    try reflexivity.
  destruct (existsChar isDigit (trim s) && forallChar isDigit (trim s));
    reflexivity.
Qed.

(** Decimal numerals and their value. *)
Lemma parseDigits_uint (d : Decimal.uint) :
  forall acc, (0 <= acc)%Z ->
    parseDigits acc (NilEmpty.string_of_uint d)
    = Z.of_nat (Nat.of_uint_acc d (Z.to_nat acc)).
Proof.
  induction d as [|d IH|d IH|d IH|d IH|d IH|d IH|d IH|d IH|d IH|d IH];
    intros acc Hacc;
    [ cbn [NilEmpty.string_of_uint parseDigits Nat.of_uint_acc]; lia | .. ];
    cbn [NilEmpty.string_of_uint parseDigits Nat.of_uint_acc];
    (match goal with
     | |- context [code ?c] =>
         let v := eval vm_compute in (code c) in change (code c) with v
     end);
    rewrite IH by lia; do 2 f_equal;
    rewrite Nat.tail_mul_spec; lia.
Qed.

Lemma showNat_digits (n : nat) :
  forallChar isDigit (showNat n) = true /\ showNat n <> "".
Proof.
  unfold showNat, NilZero.string_of_uint.
  assert (H : forall d, forallChar isDigit (NilEmpty.string_of_uint d) = true).
  { induction d; cbn [NilEmpty.string_of_uint forallChar]; auto. }
  destruct (Nat.to_uint n) eqn:E; (split; [|discriminate]);
    try reflexivity; rewrite <- E at 1;
    try (rewrite E; apply (H _)).
Qed.

Lemma parseDigits_showNat (n : nat) :
  parseDigits 0 (showNat n) = Z.of_nat n.
Proof.
  unfold showNat, NilZero.string_of_uint.
  pose proof (DecimalNat.Unsigned.of_to n) as Hn. unfold Nat.of_uint in Hn.
  destruct (Nat.to_uint n) eqn:E;
    [ cbn in Hn; subst n; reflexivity | .. ];
    rewrite parseDigits_uint by lia; change (Z.to_nat 0) with 0%nat;
    now rewrite Hn.
Qed.

End DurationFacts.

(* ------------------------------------------------------------------ *)
(** ** What the duration parser guarantees *)

Module DurationSpec.
Import Js JsFacts JsMore Reminder DurationFacts.

(** A parsed duration is never negative. *)
Theorem parseDuration_is_never_negative (s : string) (n : Z) :
  parseDuration s = Some n -> (0 <= n)%Z.
Proof.
  rewrite parseDuration_eq.
  destruct (matchDigitsThen "h" s) as [h|] eqn:Eh;
    destruct (matchDigitsThen "m" s) as [m|] eqn:Em.
  - destruct (matchDigitsThen_digits _ _ _ Eh) as [Hh _].
    destruct (matchDigitsThen_digits _ _ _ Em) as [Hm _].
    pose proof (parseDigits_nonneg h 0 Hh (Z.le_refl 0)).
    pose proof (parseDigits_nonneg m 0 Hm (Z.le_refl 0)).
    intros E; inversion E; subst. lia.
  - destruct (matchDigitsThen_digits _ _ _ Eh) as [Hh _].
    pose proof (parseDigits_nonneg h 0 Hh (Z.le_refl 0)).
    intros E; inversion E; subst. lia.
  - destruct (matchDigitsThen_digits _ _ _ Em) as [Hm _].
    pose proof (parseDigits_nonneg m 0 Hm (Z.le_refl 0)).
    intros E; inversion E; subst. lia.
  - destruct (existsChar isDigit (trim s)); [|discriminate].
    destruct (forallChar isDigit (trim s)) eqn:Hd; [|discriminate].
    intros E; inversion E; subst.
    exact (parseDigits_nonneg _ 0 Hd (Z.le_refl 0)).
Qed.

Lemma parseDuration_is_never_negative_witness : (0 <= 150)%Z.
Proof. exact (parseDuration_is_never_negative "2h30m" 150 eq_refl). Defined.

(** A text without a digit is not a duration. *)
Theorem parseDuration_needs_a_digit (s : string) :
  existsChar isDigit s = false -> parseDuration s = None.
Proof.
  intros H. rewrite parseDuration_eq.
  rewrite !(matchDigitsThen_no_digit _ s H), (existsChar_trim _ s H).
  reflexivity.
Qed.

Lemma parseDuration_needs_a_digit_witness :
  parseDuration "half an hour" = None.
Proof. apply parseDuration_needs_a_digit. reflexivity. Defined.

(** The documented formats, for all numbers that the program's doubles
    hold exactly (a total of at most 2^53 minutes): a bare number is
    minutes, [<m>m] is [m] minutes, [<h>h] is sixty times [h] minutes,
    and [<h>h<m>m] is their sum. *)
Theorem parseDuration_reads_the_documented_formats (h m : nat) :
  (60 * Z.of_nat h + Z.of_nat m <= 2 ^ 53)%Z ->
  parseDuration (showNat m) = Some (Z.of_nat m)
  /\ parseDuration (showNat m ++ "m") = Some (Z.of_nat m)
  /\ parseDuration (showNat h ++ "h") = Some (60 * Z.of_nat h)%Z
  /\ parseDuration (showNat h ++ "h" ++ showNat m ++ "m")
     = Some (60 * Z.of_nat h + Z.of_nat m)%Z.
Proof.
  intros _.
  destruct (showNat_digits h) as [Hh Hhne].
  destruct (showNat_digits m) as [Hm Hmne].
  assert (Nh : isDigit "h" = false) by reflexivity.
  assert (Nm : isDigit "m" = false) by reflexivity.
  assert (Wh : isWhiteSpace "h" = false) by reflexivity.
  assert (Wm : isWhiteSpace "m" = false) by reflexivity.
  assert (Dhm : lowerChar "h" <> "m"%char) by discriminate.
  assert (Dmh : lowerChar "m" <> "h"%char) by discriminate.
  split; [|split; [|split]]; rewrite parseDuration_eq.
  - rewrite !(matchDigitsThen_all_digits _ _ Hm), (trim_digits _ Hm), Hm.
    rewrite (forallChar_existsChar _ _ Hmne Hm), parseDigits_showNat.
    reflexivity.
  - rewrite (matchDigitsThen_skip "h" "m" _ "" Hm Nm Wm Dmh).
    rewrite (matchDigitsThen_hit "m" "m" _ "" Hmne Hm Nm Wm eq_refl).
    cbn [matchDigitsThen]. rewrite parseDigits_showNat. f_equal. lia.
  - rewrite (matchDigitsThen_hit "h" "h" _ "" Hhne Hh Nh Wh eq_refl).
    rewrite (matchDigitsThen_skip "m" "h" _ "" Hh Nh Wh Dhm).
    cbn [matchDigitsThen]. rewrite parseDigits_showNat. f_equal. lia.
  - change (showNat h ++ "h" ++ showNat m ++ "m")
      with (showNat h ++ String "h" (showNat m ++ String "m" "")).
    rewrite (matchDigitsThen_hit "h" "h" _ _ Hhne Hh Nh Wh eq_refl).
    rewrite (matchDigitsThen_skip "m" "h" _ _ Hh Nh Wh Dhm).
    rewrite (matchDigitsThen_hit "m" "m" _ "" Hmne Hm Nm Wm eq_refl).
    rewrite !parseDigits_showNat. f_equal. lia.
Qed.

Lemma parseDuration_reads_the_documented_formats_witness :
  parseDuration "30" = Some 30%Z
  /\ parseDuration "30m" = Some 30%Z
  /\ parseDuration "2h" = Some 120%Z
  /\ parseDuration "2h30m" = Some 150%Z.
Proof.
  apply (parseDuration_reads_the_documented_formats 2 30).
  vm_compute. discriminate.
Defined.

End DurationSpec.

(* ------------------------------------------------------------------ *)
(** ** What the formatters guarantee *)

Module FormatMore.
Import Js Format FormatComment.

(** [formatTask] leaves out what is empty: the description is never the
    empty string and the labels are never an empty list; what it keeps
    is the task's own. *)
Theorem formatTask_omits_empty_fields (t : Task.t) :
  description (formatTask t) <> Some ""
  /\ labels (formatTask t) <> Some []
  /\ (description (formatTask t) = None <-> Task.description t = "")
  /\ (labels (formatTask t) = None <-> Task.labels t = [])
  /\ (forall d, description (formatTask t) = Some d -> d = Task.description t)
  /\ (forall l, labels (formatTask t) = Some l -> l = Task.labels t).
Proof.
  unfold formatTask; cbn [description labels].
  destruct (Task.description t) as [|c d] eqn:Ed;
    destruct (Task.labels t) as [|x l] eqn:El; cbn [truthy String.eqb negb];
    repeat split; intros; try discriminate; try congruence.
Qed.

Definition plainTask : Task.t :=
  Task.mk "51" "Water plants" "" 1 None None [] "p1" None None
    "https://app.todoist.com/app/task/51".

Lemma formatTask_omits_empty_fields_witness :
  description (formatTask plainTask) = None
  /\ labels (formatTask plainTask) = None.
Proof.
  destruct (formatTask_omits_empty_fields plainTask)
    as [_ [_ [Hd [Hl _]]]].
  split; [apply Hd | apply Hl]; reflexivity.
Defined.

(** A formatted comment has an attachment name only when it has an
    attachment; a comment without one has neither. *)
Theorem formatComment_attachment_fields (c : Comment.t) :
  (forall n, attachmentName (formatComment c) = Some n ->
     hasAttachment (formatComment c) = true
     /\ exists f, Comment.fileAttachment c = Some f
                  /\ FileAttachment.fileName f = Some n)
  /\ (hasAttachment (formatComment c) = true <->
      Comment.fileAttachment c <> None)
  /\ (Comment.fileAttachment c = None ->
      hasAttachment (formatComment c) = false
      /\ attachmentName (formatComment c) = None).
Proof.
  unfold formatComment; cbn [attachmentName hasAttachment].
  destruct (Comment.fileAttachment c) as [f|]; cbn [coalesce].
  - split; [|split].
    + intros n Hn. split; [reflexivity|]. exists f. split; [reflexivity|].
      destruct (FileAttachment.fileName f); [exact Hn | discriminate].
    + split; [discriminate | reflexivity].
    + discriminate.
  - split; [|split].
    + discriminate.
    + split; [discriminate | congruence].
    + auto.
Qed.

Definition receipt : Comment.t :=
  Comment.mk "c1" "Paid" "2026-02-20T10:00:00Z" (Some "42") None
    (Some (FileAttachment.mk (Some "receipt.png") None (Some "image/png"))).

Lemma formatComment_attachment_fields_witness :
  hasAttachment (formatComment receipt) = true
  /\ exists f, Comment.fileAttachment receipt = Some f
               /\ FileAttachment.fileName f = Some "receipt.png".
Proof.
  exact (proj1 (formatComment_attachment_fields receipt)
           "receipt.png" eq_refl).
Defined.

End FormatMore.

(* ------------------------------------------------------------------ *)
(** ** Credentials and the reminder-add command *)

Module ReminderMore.
Import Js JsFacts JsMore Refs Reminder ReminderSpec.

(** [getToken] makes no remote call and never throws: it returns a token
    that is not empty, from the environment variable when that is set
    and else the trimmed output of the secrets command, or exits with
    the credentials message. *)
Theorem getToken_returns_a_nonempty_token_or_exits (h : Host) :
  (exists token,
     getToken h = (Returned token, []) /\ token <> ""
     /\ (truthyOpt (env_TODOIST_API_TOKEN h) = true ->
         env_TODOIST_API_TOKEN h = Some token)
     /\ (truthyOpt (env_TODOIST_API_TOKEN h) = false ->
         exists out, secretsLease h = Some out /\ token = trim out))
  \/ (getToken h = (Exited noTokenMessage, [])
      /\ truthyOpt (env_TODOIST_API_TOKEN h) = false
      /\ forall out, secretsLease h = Some out -> trim out = "").
Proof.
  assert (Hne : forall s, truthy s = true -> s <> "").
  { intros s Hs ->. discriminate Hs. }
  unfold getToken.
  destruct (env_TODOIST_API_TOKEN h) as [t|] eqn:Ee; cbn [truthyOpt].
  - destruct (truthy t) eqn:Et.
    + left. exists t. split; [reflexivity|]. split; [exact (Hne _ Et)|].
      split; [reflexivity | discriminate].
    + destruct (secretsLease h) as [out|] eqn:Es.
      * destruct (truthy (trim out)) eqn:Eo.
        -- left. exists (trim out). split; [reflexivity|].
           split; [exact (Hne _ Eo)|]. split; [discriminate|].
           intros _. exists out. split; reflexivity.
        -- right. split; [reflexivity|]. split; [reflexivity|].
           intros out' Ho. inversion Ho; subst.
           unfold truthy in Eo. apply negb_false_iff, String.eqb_eq in Eo.
           exact Eo.
      * right. split; [reflexivity|]. split; [reflexivity | discriminate].
  - destruct (secretsLease h) as [out|] eqn:Es.
    + destruct (truthy (trim out)) eqn:Eo.
      * left. exists (trim out). split; [reflexivity|].
        split; [exact (Hne _ Eo)|]. split; [discriminate|].
        intros _. exists out. split; reflexivity.
      * right. split; [reflexivity|]. split; [reflexivity|].
        intros out' Ho. inversion Ho; subst.
        unfold truthy in Eo. apply negb_false_iff, String.eqb_eq in Eo.
        exact Eo.
    + right. split; [reflexivity|]. split; [reflexivity | discriminate].
Qed.

Lemma getToken_returns_a_nonempty_token_or_exits_witness :
  exists token,
    getToken sampleHost = (Returned token, []) /\ token <> "".
Proof.
  destruct (getToken_returns_a_nonempty_token_or_exits sampleHost)
    as [[token [Hrun [Hne _]]]|[Hexit _]].
  - exists token. split; assumption.
  - discriminate Hexit.
Defined.

(** The host of the examples with the task's due value taken away. *)
Definition noDueHost : Host :=
  {| env_TODOIST_API_TOKEN := None;
     secretsLease := Some (" t0ken" ++ nl);
     api := {| getTask := fun id =>
                 if id =? "42"
                 then inr (Task.mk "42" "Call mum" "" 1 None None [] "p1"
                             None None "https://app.todoist.com/app/task/42")
                 else inl "HTTP 404";
               getTasksByFilter := fun _ _ => inr [];
               getTasks := fun _ => inr [];
               getProject := fun _ => inl "HTTP 404";
               getProjects := inr [] |};
     randomUUID := ("uuid-1", "uuid-2");
     fetchSync := fun _ => inr {| ok := true; status := 200 |} |}.

(** With [--before], a duration that does not parse, or a task without a
    due value, ends the command after the task is resolved: the Sync
    endpoint is not called, whether or not [--at] is given as well. *)
Theorem before_is_checked_before_the_sync_call
  (h : Host) (ref b : string) (at_ : option string)
  (token : string) (task : Task.t) (tr : list call) :
  truthy b = true ->
  getToken h = (Returned token, []) ->
  resolveTaskRef (api h) ref = (Returned task, tr) ->
  (parseDuration b = None ->
   cmdReminderAdd h ref (Some b) at_
   = (Exited ("Invalid duration " ++ dq ++ b ++ dq
              ++ ". Examples: 30m, 1h, 2h30m"), tr))
  /\ (forall minutes, parseDuration b = Some minutes ->
        Task.due task = None ->
        cmdReminderAdd h ref (Some b) at_
        = (Exited
             "Cannot use --before: task has no due date. Use --at instead.",
           tr)).
Proof.
  intros Hb Htok Hres.
  assert (Hopt : negb (truthyOpt (Some b)) && negb (truthyOpt at_) = false)
    by (cbn [truthyOpt]; rewrite Hb; reflexivity).
  split.
  - intros Hdur. unfold cmdReminderAdd, getApi. rewrite Hopt, Htok.
    cbn [bind ret app]. rewrite Hres. cbn [bind]. rewrite Hb, Hdur.
    cbn [fatal bind]. rewrite app_nil_r. reflexivity.
  - intros minutes Hdur Hdue. unfold cmdReminderAdd, getApi.
    rewrite Hopt, Htok. cbn [bind ret app]. rewrite Hres. cbn [bind].
    rewrite Hb, Hdur, Hdue. cbn [fatal bind]. rewrite app_nil_r.
    reflexivity.
Qed.

Lemma before_is_checked_before_the_sync_call_witness :
  cmdReminderAdd noDueHost "id:42" (Some "30m") (Some "2026-02-20T10:00")
  = (Exited "Cannot use --before: task has no due date. Use --at instead.",
     [GetTask "42"])
  /\ cmdReminderAdd noDueHost "id:42" (Some "soon") None
     = (Exited ("Invalid duration " ++ dq ++ "soon" ++ dq
                ++ ". Examples: 30m, 1h, 2h30m"), [GetTask "42"]).
Proof.
  split.
  - apply (proj2 (before_is_checked_before_the_sync_call
                    noDueHost "id:42" "30m" (Some "2026-02-20T10:00")
                    "t0ken" _ [GetTask "42"] eq_refl eq_refl eq_refl) 30%Z);
      reflexivity.
  - apply (proj1 (before_is_checked_before_the_sync_call
                    noDueHost "id:42" "soon" None
                    "t0ken" _ [GetTask "42"] eq_refl eq_refl eq_refl)).
    reflexivity.
Defined.



(** When the ref does not resolve to a task, [reminder-add] ends as the
    resolver ended and with the resolver's calls only: nothing is sent
    to the Sync endpoint. *)
Theorem unresolved_ref_creates_no_reminder
  (h : Host) (ref : string) (before at_ : option string) (token : string) :
  truthyOpt before || truthyOpt at_ = true ->
  getToken h = (Returned token, []) ->
  (forall e tr, resolveTaskRef (api h) ref = (Thrown e, tr) ->
     cmdReminderAdd h ref before at_ = (Thrown e, tr))
  /\ (forall m tr, resolveTaskRef (api h) ref = (Exited m, tr) ->
        cmdReminderAdd h ref before at_ = (Exited m, tr)).
Proof.
  intros Hopt Htok.
  assert (Hg : negb (truthyOpt before) && negb (truthyOpt at_) = false).
  { rewrite <- negb_orb, Hopt. reflexivity. }
  split; intros x tr Hres; unfold cmdReminderAdd, getApi;
    rewrite Hg, Htok; cbn [bind ret app]; rewrite Hres; reflexivity.
Qed.

Lemma unresolved_ref_creates_no_reminder_witness :
  cmdReminderAdd sampleHost "mum" (Some "30m") None
  = (Exited (notFoundMessage "Task" "mum"),
     [GetTasksByFilter "search: mum" (Some 10)]).
Proof.
  apply (proj2 (unresolved_ref_creates_no_reminder
                  sampleHost "mum" (Some "30m") None "t0ken"
                  eq_refl eq_refl)).
  reflexivity.
Defined.

(** Without credentials the command stops at the credentials message and
    makes no remote call at all. *)
Theorem no_credentials_no_remote_call
  (h : Host) (ref : string) (before at_ : option string) :
  truthyOpt before || truthyOpt at_ = true ->
  truthyOpt (env_TODOIST_API_TOKEN h) = false ->
  (forall out, secretsLease h = Some out -> trim out = "") ->
  cmdReminderAdd h ref before at_ = (Exited noTokenMessage, []).
Proof.
  intros Hopt He Hs.
  assert (Hg : negb (truthyOpt before) && negb (truthyOpt at_) = false).
  { rewrite <- negb_orb, Hopt. reflexivity. }
  assert (Ht : getToken h = (Exited noTokenMessage, [])).
  { unfold getToken. rewrite He.
    destruct (secretsLease h) as [out|]; [|reflexivity].
    rewrite (Hs out eq_refl). reflexivity. }
  unfold cmdReminderAdd, getApi. rewrite Hg, Ht. reflexivity.
Qed.

Lemma no_credentials_no_remote_call_witness :
  cmdReminderAdd
    {| env_TODOIST_API_TOKEN := Some "";
       secretsLease := Some ("  " ++ nl);
       api := api sampleHost;
       randomUUID := ("uuid-1", "uuid-2");
       fetchSync := fetchSync sampleHost |}
    "id:42" (Some "30m") None
  = (Exited noTokenMessage, []).
Proof.
  apply no_credentials_no_remote_call.
  - reflexivity.
  - reflexivity.
  - intros out H. inversion H. reflexivity.
Defined.

End ReminderMore.

(* ------------------------------------------------------------------ *)
(** ** What the review dashboard guarantees *)

Module ReviewMore.
Import Js JsDate Review Format ReviewFacts RefsFacts ReviewSpec.

(** For a task whose due date is a calendar date, when the offset at the
    midnight that starts the local day is less than a day: the task is
    overdue exactly when its date is before the local day, or is the
    local day itself and local time was behind UTC at that midnight.
    The offset at the current moment matters only for which day is the
    local day. *)
Theorem overdue_for_calendar_due_dates
  (c : Clock) (t : Task.t) (d : Due.t) (date : string) (y m dd : Z) :
  Task.due t = Some d -> Due.date d = Some date ->
  parseDateOnly date = Some (y, m, dd) ->
  (-1440 < utcOffsetAtMidnight c < 1440)%Z ->
  isOverdue c t
  = ((daysFromCivil y m dd <? localDay c)
     || ((daysFromCivil y m dd =? localDay c)
         && (utcOffsetAtMidnight c <? 0)))%Z.
Proof.
  intros Hd Hdate Hp Hoff.
  rewrite (isOverdue_dateOnly c t d date y m dd Hd Hdate Hp).
  unfold msPerDay, msPerMinute.
  destruct (Z.ltb_spec (daysFromCivil y m dd) (localDay c)) as [H1|H1];
    cbn [orb].
  - apply Z.ltb_lt. lia.
  - destruct (Z.eqb_spec (daysFromCivil y m dd) (localDay c)) as [H2|H2];
      cbn [andb].
    + rewrite H2.
      destruct (Z.ltb_spec (utcOffsetAtMidnight c) 0);
        [apply Z.ltb_lt | apply Z.ltb_ge]; lia.
    + apply Z.ltb_ge. lia.
Qed.

Definition berlinMorning : Clock :=
  {| now := 1771578000000; utcOffsetMinutes := 60;
     utcOffsetAtMidnight := 60; parseOther := fun _ => None |}.

(** The Azores on 2026-03-29, ten in the morning: the clocks went from
    one hour behind UTC to UTC at midnight, so local midnight was at
    01:00 UTC. *)
Definition azoresAfterTheChange : Clock :=
  {| now := 1774778400000; utcOffsetMinutes := 0;
     utcOffsetAtMidnight := -60; parseOther := fun _ => None |}.

Lemma overdue_for_calendar_due_dates_witness :
  isOverdue berlinMorning (dueOn "1" "2026-02-20") = false
  /\ isOverdue berlinMorning (dueOn "2" "2026-02-19") = true
  /\ localDay azoresAfterTheChange = daysFromCivil 2026 3 29
  /\ startOfLocalDay azoresAfterTheChange = 1774746000000%Z
  /\ isOverdue azoresAfterTheChange (dueOn "3" "2026-03-29") = true.
Proof.
  split; [|split; [|split; [|split]]].
  - rewrite (overdue_for_calendar_due_dates berlinMorning
               (dueOn "1" "2026-02-20") _ "2026-02-20" 2026 2 20
               eq_refl eq_refl eq_refl); [reflexivity|].
    simpl. lia.
  - rewrite (overdue_for_calendar_due_dates berlinMorning
               (dueOn "2" "2026-02-19") _ "2026-02-19" 2026 2 19
               eq_refl eq_refl eq_refl); [reflexivity|].
    simpl. lia.
  - reflexivity.
  - reflexivity.
  - rewrite (overdue_for_calendar_due_dates azoresAfterTheChange
               (dueOn "3" "2026-03-29") _ "2026-03-29" 2026 3 29
               eq_refl eq_refl eq_refl); [reflexivity|].
    simpl. lia.
Defined.

Lemma filter_disjoint_length {A} (f g : A -> bool) (l : list A) :
  (forall x, f x = true -> g x = false) ->
  length (filter f l) + length (filter g l)
  = length (filter (fun x => f x || g x) l).
Proof.
  intros H. induction l as [|a l IH]; [reflexivity|].
  cbn [filter]. destruct (f a) eqn:Ef.
  - rewrite (H a Ef). cbn [orb length]. lia.
  - destruct (g a); cbn [orb length]; lia.
Qed.

Lemma filter_length_le {A} (f : A -> bool) (l : list A) :
  length (filter f l) <= length l.
Proof.
  induction l as [|a l IH]; [apply le_n|].
  cbn [filter]. destruct (f a); cbn [length]; lia.
Qed.

(** The sections of the dashboard are parts of the full listing: the
    overdue tasks are tasks of the listing in their order, each with a
    due value, so no task is both overdue and floating, and the counts
    of the two together, like the count of the inbox, stay within the
    total. *)
Theorem review_sections_are_parts_of_the_listing
  (c : Clock) (todayTasks allTasks : list Task.t)
  (projects : list Project.t) :
  let r := cmdReview c todayTasks allTasks projects in
  sublist (overdue c allTasks) allTasks
  /\ Forall (fun t => Task.due t <> None) (overdue c allTasks)
  /\ count (r_overdue r) = length (tasks (r_overdue r))
  /\ count (r_overdue r) + r_floating r <= r_total r
  /\ count (r_inbox r) <= r_total r.
Proof.
  cbv zeta. unfold cmdReview, taskList.
  cbn [r_overdue r_floating r_total r_inbox count tasks].
  split; [apply sublist_filter|]. split; [|split; [|split]].
  - apply Forall_forall. intros t Ht. apply filter_In in Ht.
    destruct Ht as [_ Ht]. unfold isOverdue in Ht.
    destruct (Task.due t); [discriminate | discriminate Ht].
  - now rewrite length_map.
  - unfold overdue. rewrite filter_disjoint_length.
    + apply filter_length_le.
    + intros t Ht. unfold isOverdue in Ht.
      destruct (Task.due t); [reflexivity | discriminate Ht].
  - destruct (find Project.isInboxProject projects);
      [apply filter_length_le | apply Nat.le_0_l].
Qed.

(** With distinct ids, a project of the listing is known by its id. *)
Lemma project_of_id (ps : list Project.t) (x y : Project.t) :
  NoDup (map Project.id ps) -> In x ps -> In y ps ->
  Project.id x = Project.id y -> x = y.
Proof.
  induction ps as [|a ps IH]; cbn [map]; intros Hnd Hx Hy Hf; [destruct Hx|].
  inversion Hnd as [|b l' Hnotin Hnd']; subst.
  destruct Hx as [->|Hx], Hy as [->|Hy].
  - reflexivity.
  - elim Hnotin. rewrite Hf. now apply in_map.
  - elim Hnotin. rewrite <- Hf. now apply in_map.
  - now apply IH.
Qed.

(** Leaving projects out keeps the ids distinct. *)
Lemma distinct_ids_kept (keep : Project.t -> bool) (ps : list Project.t) :
  NoDup (map Project.id ps) -> NoDup (map Project.id (filter keep ps)).
Proof.
  intros Hnd. induction ps as [|a ps IH]; cbn [map filter]; [constructor|].
  inversion Hnd as [|b l' Hnotin Hnd']; subst.
  destruct (keep a); [|now apply IH].
  cbn [map]. constructor; [|now apply IH].
  intros Hin. apply Hnotin. apply in_map_iff in Hin.
  destruct Hin as [x [Hx Hin]]. apply filter_In in Hin.
  rewrite <- Hx. apply in_map. exact (proj1 Hin).
Qed.

Lemma list_sum_cons (x : nat) (l : list nat) :
  list_sum (x :: l) = x + list_sum l.
Proof. reflexivity. Qed.

(** Tasks counted per project id, over distinct ids, are counted once. *)
Lemma counts_by_id_le (ids : list string) (allTasks : list Task.t) :
  NoDup ids ->
  list_sum
    (map (fun i => length (filter (fun t => Task.projectId t =? i) allTasks))
       ids)
  = length (filter (fun t => existsb (String.eqb (Task.projectId t)) ids)
              allTasks).
Proof.
  induction ids as [|i ids IH]; intros Hnd; cbn [map existsb].
  - induction allTasks as [|t ts IHt]; [reflexivity | exact IHt].
  - inversion Hnd as [|x l Hnotin Hnd']; subst.
    rewrite list_sum_cons, (IH Hnd'). apply filter_disjoint_length.
    intros t Ht. apply String.eqb_eq in Ht. subst i.
    destruct (existsb _ ids) eqn:E; [|reflexivity].
    apply existsb_exists in E. destruct E as [j [Hj Hej]].
    apply String.eqb_eq in Hej. subst j. now elim Hnotin.
Qed.

(** When the project ids of the listing are distinct, no task is counted
    twice in the breakdown: the inbox count and the per-project counts
    add up to at most the total. *)
Theorem review_breakdown_counts_each_task_once
  (c : Clock) (todayTasks allTasks : list Task.t)
  (projects : list Project.t) :
  NoDup (map Project.id projects) ->
  let r := cmdReview c todayTasks allTasks projects in
  count (r_inbox r) + list_sum (map taskCount (r_projects r)) <= r_total r.
Proof.
  intros Hnd. cbv zeta. unfold cmdReview, taskList.
  cbn [r_inbox r_projects r_total count].
  rewrite map_map. cbn [taskCount].
  set (others := filter (fun p => negb (Project.isInboxProject p)) projects).
  assert (Hno : NoDup (map Project.id others))
    by (apply distinct_ids_kept; exact Hnd).
  assert (Hsum :
    list_sum
      (map (fun p =>
              length (filter (fun t => Task.projectId t =? Project.id p)
                        allTasks)) others)
    = list_sum
        (map (fun i =>
                length (filter (fun t => Task.projectId t =? i) allTasks))
           (map Project.id others))) by (now rewrite map_map).
  rewrite Hsum. clear Hsum.
  destruct (find Project.isInboxProject projects) as [ib|] eqn:Ef.
  - apply find_some in Ef. destruct Ef as [Hin Hib].
    assert (Hnd' : NoDup (Project.id ib :: map Project.id others)).
    { constructor; [|exact Hno]. intros Hi. apply in_map_iff in Hi.
      destruct Hi as [p [Hp Hpin]]. apply filter_In in Hpin.
      destruct Hpin as [Hpin Hpno].
      assert (p = ib)
        by (exact (project_of_id projects p ib Hnd Hpin Hin Hp)).
      subst p. rewrite Hib in Hpno. discriminate. }
    pose proof (counts_by_id_le _ allTasks Hnd') as Hc.
    cbn [map] in Hc. rewrite list_sum_cons in Hc. rewrite Hc.
    apply filter_length_le.
  - cbn [length]. rewrite (counts_by_id_le _ allTasks Hno).
    apply filter_length_le.
Qed.

Lemma review_breakdown_counts_each_task_once_witness :
  count (r_inbox (cmdReview berlinMorning []
                    [dueOn "1" "2026-02-20"; dueOn "2" "2026-02-19"]
                    [Project.mk "p1" "Inbox" true;
                     Project.mk "p2" "Work" false]))
  + list_sum
      (map taskCount
         (r_projects (cmdReview berlinMorning []
                        [dueOn "1" "2026-02-20"; dueOn "2" "2026-02-19"]
                        [Project.mk "p1" "Inbox" true;
                         Project.mk "p2" "Work" false])))
  <= 2.
Proof.
  apply (review_breakdown_counts_each_task_once berlinMorning []
           [dueOn "1" "2026-02-20"; dueOn "2" "2026-02-19"]
           [Project.mk "p1" "Inbox" true; Project.mk "p2" "Work" false]).
  repeat constructor; simpl; intuition discriminate.
Defined.

End ReviewMore.
